(** * WHRequestHandler: rate-limit cache and per-endpoint queue

    A shallow embedding of [WHRequestHandler] (the class that posts to
    Discord webhooks): its two [Map]s, [setOrEditRateLimitCache], the
    dispatch decision of [conditionalsHandler] and the promise chain of
    [request], and of the GitLab route that calls it, followed by the
    properties stated about them. *)

From Stdlib Require Import Ascii.
From stdpp Require Import gmap strings list fin_maps.

#[local] Open Scope Z_scope.

(** ** JavaScript numbers

    Header values reach the handler through [Number(...)].  A value is
    modelled by the result of that conversion: [NaN] (an absent or
    non-numeric header) or an integer-valued number.  The integers stand for
    doubles in the range where [+] and [*] are exact, which holds for epoch
    milliseconds. *)

Inductive jsnum : Type :=
| NaN
| Num (z : Z).

(** [x * y] and [x + y] on numbers: [NaN] is absorbing. *)
Definition js_mul (x y : jsnum) : jsnum :=
  match x, y with
  | Num a, Num b => Num (a * b)
  | _, _ => NaN
  end.

Definition js_add (x y : jsnum) : jsnum :=
  match x, y with
  | Num a, Num b => Num (a + b)
  | _, _ => NaN
  end.

(** [x < y]: false as soon as one side is [NaN]. *)
Definition js_lt (x y : jsnum) : bool :=
  match x, y with
  | Num a, Num b => a <? b
  | _, _ => false
  end.

(** [x === 0]. *)
Definition js_is_zero (x : jsnum) : bool :=
  match x with
  | Num 0 => true
  | _ => false
  end.

(** [v || 0] where [v] is the result of [Map.prototype.get]: [undefined],
    [NaN] and [0] are falsy. *)
Definition or_zero (v : option jsnum) : jsnum :=
  match v with
  | Some (Num z) => Num z
  | _ => Num 0
  end.

(** ECMAScript [ToInt32], applied by [^] and [&] to their operands: [NaN]
    becomes [0], any other number is reduced modulo [2^32] into
    [-2^31 .. 2^31 - 1]. *)
Definition ToInt32 (x : jsnum) : Z :=
  match x with
  | NaN => 0
  | Num z =>
      let k := z mod 2 ^ 32 in
      if 2 ^ 31 <=? k then k - 2 ^ 32 else k
  end.

(** [-(x < y)]: unary minus of a boolean, [-1] or [-0]. *)
Definition neg_of_bool (b : bool) : jsnum := Num (- Z.b2z b).

(** [a ^ ((a ^ b) & -(a < b))], the expression of lines 107 and 147. *)
Definition branchless_max (a b : jsnum) : Z :=
  Z.lxor (ToInt32 a)
         (Z.land (Z.lxor (ToInt32 a) (ToInt32 b))
                 (ToInt32 (neg_of_bool (js_lt a b)))).

(** The plain maximum of two timestamps. *)
Definition plain_max (a b : Z) : Z := Z.max a b.

Definition int32_range (z : Z) : Prop := - 2 ^ 31 <= z < 2 ^ 31.

(** ** Response headers and the rate-limit cache *)

(** The four headers read by the handler, after conversion. *)
Record Header : Type := mkHeader {
  x_ratelimit_remaining : jsnum;  (* Number(header['x-ratelimit-remaining']) *)
  x_ratelimit_reset : jsnum;      (* Number(header['x-ratelimit-reset']) *)
  retry_after : jsnum;            (* Number(header['retry-after']) *)
  x_ratelimit_global : bool       (* truthiness of header['x-ratelimit-global'] *)
}.

(** The reserved key of the global lockout. *)
Definition global_key : string := "global".

Definition discordResetTime (header : Header) : jsnum :=
  js_mul (x_ratelimit_reset header) (Num 1000).

Definition discordRetryAfter (now : Z) (header : Header) : jsnum :=
  js_add (retry_after header) (Num now).

(** Does the response trigger a lockout (line 104)? *)
Definition triggers_lockout (header : Header) (statusCode : Z) : bool :=
  js_is_zero (x_ratelimit_remaining header) || (statusCode =? 429).

(** [setOrEditRateLimitCache(endpoint, header, edit, statusCode, name)], as a
    function of the cache and of [Date.now()]. *)
Definition setOrEditRateLimitCache (now : Z) (cache : gmap string jsnum)
    (endpoint : string) (header : Header) (edit : bool) (statusCode : Z)
  : gmap string jsnum :=
  if triggers_lockout header statusCode then
    let timestamp :=
      branchless_max (discordResetTime header) (discordRetryAfter now header) in
    if x_ratelimit_global header then
      <[global_key := discordRetryAfter now header]> cache
    else
      <[endpoint := Num timestamp]> cache
  else if edit then
    delete endpoint cache
  else
    cache.

(** ** Transport outcomes

    [superagent] resolves with a response (status, headers) or rejects with an
    error carrying [error.status] ([undefined] for a network-level failure)
    and [error.response.header]. *)

Record Response : Type := mkResponse {
  status : Z;
  header : Header
}.

Record Error : Type := mkError {
  error_status : option Z;
  error_header : Header
}.

Inductive NetResult : Type :=
| NetOk (response : Response)
| NetErr (error : Error).

(** How the promise returned to the caller of [request] settles. *)
Inductive Outcome : Type :=
| Resolved (response : Response)
| Rejected (error : Error).

(** [error.status === 429]. *)
Definition is_429 (error : Error) : bool :=
  match error_status error with
  | Some code => code =? 429
  | None => false
  end.

(** ** The dispatch decision of [conditionalsHandler]

    A submission is in one of these phases.  [InFlight] records which
    [await this.superagent(...)] is pending: line 139 ([Direct]), line 172
    ([Late]) or line 153, inside the timer callback ([Timed]). *)

Inductive Path : Type :=
| Direct
| Late
| Timed.

Inductive Phase : Type :=
| Queued (pred : nat)      (* queue.then(...) waits for the tail of [pred] *)
| InFlight (path : Path)   (* a network call is pending *)
| Sleeping (due : Z)       (* setTimeout(..., timestamp - Date.now()) is pending *)
| Retrying                 (* setTimeout(..., 0) of line 183 is pending *)
| Settled (outcome : Outcome).

(** [Map.prototype.has]. *)
Definition map_has {V : Type} (m : gmap string V) (k : string) : bool :=
  match m !! k with
  | Some _ => true
  | None => false
  end.

(** The [else] branch of line 144: compare the later of the two stored
    timestamps with [Date.now()]. *)
Definition timestamp_path (now : Z) (cache : gmap string jsnum) (endpoint : string)
  : Phase :=
  let endpointTimestamp := or_zero (cache !! endpoint) in
  let globalTimestamp := or_zero (cache !! global_key) in
  let timestamp := branchless_max endpointTimestamp globalTimestamp in
  if now <=? timestamp then Sleeping (now + (timestamp - now))
  else InFlight Late.

(** [conditionalsHandler] from its entry to its first suspension point. *)
Definition conditionalsHandler (now : Z) (cache : gmap string jsnum) (endpoint : string)
  : Phase :=
  if negb (map_has cache endpoint) && negb (map_has cache global_key) then
    InFlight Direct
  else
    timestamp_path now cache endpoint.

(** ** The handler as a transition system

    One step per task of the event loop: a call of [request], the settling
    of a network call, or a timer firing.  Promise reactions run to
    completion inside the step that triggers them. *)

Record Op : Type := mkOp {
  op_endpoint : string;
  op_phase : Phase
}.

Record State : Type := mkState {
  rateLimitCollection : gmap string jsnum;
  queueCollection : gmap string nat;   (* endpoint ↦ submission whose tail is stored *)
  ops : list Op;                       (* submissions, in order of their call *)
  clock : Z                            (* Date.now() *)
}.

Inductive Event : Type :=
| Submit (id token : string)              (* request({id, token}, req) *)
| NetDone (op : nat) (result : NetResult) (* the pending superagent call settles *)
| TimerFire (op : nat).                   (* the pending setTimeout callback runs *)

Definition init : State := mkState ∅ ∅ [] 0.

(** [`${id}/${token}`]. *)
Definition endpoint_of (id token : string) : string := id +:+ "/" +:+ token.

Definition set_phase (i : nat) (phase : Phase) (l : list Op) : list Op :=
  alter (λ o, mkOp (op_endpoint o) phase) i l.

Definition is_settled (l : list Op) (i : nat) : bool :=
  match l !! i with
  | Some (mkOp _ (Settled _)) => true
  | _ => false
  end.

Definition in_flight (o : Op) : bool :=
  match op_phase o with
  | InFlight _ => true
  | _ => false
  end.

Definition pending (o : Op) : bool :=
  match op_phase o with
  | Settled _ => false
  | _ => true
  end.

(** The reaction [queue.then(() => this.conditionalsHandler(...))] of a
    submission chained behind [i], run when the tail of [i] settles. *)
Definition start_queued (now : Z) (cache : gmap string jsnum) (i : nat) (o : Op) : Op :=
  match op_phase o with
  | Queued pred =>
      if bool_decide (pred = i)
      then mkOp (op_endpoint o) (conditionalsHandler now cache (op_endpoint o))
      else o
  | _ => o
  end.

(** The promise of submission [i] settles: the [finally] block of [request]
    (lines 65-69) runs and the submission chained behind it starts. *)
Definition settle (i : nat) (endpoint : string) (outcome : Outcome) (s : State) : State :=
  let queue :=
    if bool_decide (queueCollection s !! endpoint = Some i)
    then delete endpoint (queueCollection s)
    else queueCollection s in
  mkState (rateLimitCollection s) queue
          (start_queued (clock s) (rateLimitCollection s) i
             <$> set_phase i (Settled outcome) (ops s))
          (clock s).

(** The [edit] argument passed after a successful call on each path
    (lines 140, 173 and 155). *)
Definition edit_flag (path : Path) : bool :=
  match path with
  | Direct => false
  | Late | Timed => true
  end.

(** The network call of submission [i] resolved. *)
Definition on_response (s : State) (i : nat) (endpoint : string) (path : Path)
    (response : Response) : State :=
  let cache :=
    setOrEditRateLimitCache (clock s) (rateLimitCollection s) endpoint
      (header response) (edit_flag path) (status response) in
  let queue :=
    match path with
    | Direct => delete endpoint (queueCollection s)   (* line 141 *)
    | Late | Timed => queueCollection s
    end in
  settle i endpoint (Resolved response) (mkState cache queue (ops s) (clock s)).

(** The network call of submission [i] rejected: the [catch] of line 178
    ([Direct], [Late]) or of line 156 ([Timed]). *)
Definition on_error (s : State) (i : nat) (endpoint : string) (path : Path)
    (error : Error) : State :=
  if is_429 error then
    let cache :=
      setOrEditRateLimitCache (clock s) (rateLimitCollection s) endpoint
        (error_header error) false 429 in
    let phase :=
      match path with
      | Timed => conditionalsHandler (clock s) cache endpoint   (* line 160 *)
      | Direct | Late => Retrying                               (* line 183 *)
      end in
    mkState cache (queueCollection s) (set_phase i phase (ops s)) (clock s)
  else
    settle i endpoint (Rejected error) s.

(** A timer of submission [i] fires; a timer never fires early. *)
Definition on_timer (s : State) (i : nat) (o : Op) : option State :=
  match op_phase o with
  | Sleeping due =>
      if due <=? clock s
      then Some (mkState (rateLimitCollection s) (queueCollection s)
                   (set_phase i (InFlight Timed) (ops s)) (clock s))
      else None
  | Retrying =>
      Some (mkState (rateLimitCollection s) (queueCollection s)
              (set_phase i
                 (conditionalsHandler (clock s) (rateLimitCollection s) (op_endpoint o))
                 (ops s))
              (clock s))
  | _ => None
  end.

(** [request(webhook, req)] up to [await request] (lines 53-61). *)
Definition request (s : State) (id token : string) : State :=
  let endpoint := endpoint_of id token in
  let start := conditionalsHandler (clock s) (rateLimitCollection s) endpoint in
  let phase :=
    match queueCollection s !! endpoint with
    | Some pred => if is_settled (ops s) pred then start else Queued pred
    | None => start                       (* Promise.resolve() *)
    end in
  mkState (rateLimitCollection s)
          (<[endpoint := length (ops s)]> (queueCollection s))
          (ops s ++ [mkOp endpoint phase])
          (clock s).

Definition set_clock (t : Z) (s : State) : State :=
  mkState (rateLimitCollection s) (queueCollection s) (ops s) t.

(** One task at time [t]; [None] when the event cannot happen in [s]. *)
Definition step (s : State) (tev : Z * Event) : option State :=
  let (t, ev) := tev in
  if t <? clock s then None else
  let s := set_clock t s in
  match ev with
  | Submit id token => Some (request s id token)
  | NetDone i result =>
      match ops s !! i with
      | Some (mkOp endpoint (InFlight path)) =>
          match result with
          | NetOk response => Some (on_response s i endpoint path response)
          | NetErr error => Some (on_error s i endpoint path error)
          end
      | _ => None
      end
  | TimerFire i =>
      match ops s !! i with
      | Some o => on_timer s i o
      | None => None
      end
  end.

Fixpoint run (s : State) (evs : list (Z * Event)) : option State :=
  match evs with
  | [] => Some s
  | tev :: evs' =>
      match step s tev with
      | Some s' => run s' evs'
      | None => None
      end
  end.

(** ** Properties stated about the handler *)

(** The endpoint's entry after the call is the plain maximum of the
    reset-derived timestamp [r * 1000] and the retry-after-derived timestamp
    [t + now]. *)
Definition records_endpoint_max (now : Z) (cache : gmap string jsnum)
    (endpoint : string) (header : Header) (edit : bool) (statusCode r t : Z) : Prop :=
  setOrEditRateLimitCache now cache endpoint header edit statusCode !! endpoint
  = Some (Num (plain_max (r * 1000) (t + now))).

(** The same maximum is what ends up under the reserved key. *)
Definition records_global_max (now : Z) (cache : gmap string jsnum)
    (endpoint : string) (header : Header) (edit : bool) (statusCode r t : Z) : Prop :=
  setOrEditRateLimitCache now cache endpoint header edit statusCode !! global_key
  = Some (Num (plain_max (r * 1000) (t + now))).

(** Strict FIFO per endpoint: whenever the network call of a submission is
    pending, every earlier submission for the same endpoint has settled. *)
Definition fifo_per_endpoint (s : State) : Prop :=
  ∀ i j oi oj,
    (i < j)%nat → ops s !! i = Some oi → ops s !! j = Some oj →
    op_endpoint oi = op_endpoint oj →
    in_flight oj = true → pending oi = false.

(** The queue map keeps an entry for every endpoint that still has an
    unsettled submission. *)
Definition queue_entry_while_pending (s : State) : Prop :=
  ∀ i o, ops s !! i = Some o → pending o = true →
         is_Some (queueCollection s !! op_endpoint o).

(** Submission [i] starts a network call in the step from [s] to [s']. *)
Definition call_started (s : State) (ev : Event) (s' : State) (i : nat)
    (endpoint : string) : Prop :=
  (∃ path, ops s' !! i = Some (mkOp endpoint (InFlight path)))
  ∧ ((∀ o, ops s !! i = Some o → in_flight o = false)
     ∨ ∃ result, ev = NetDone i result).

(** Global dominance over whole runs: no call for an endpoint starts before
    [G] while the global entry is [G] and the endpoint's own entry is absent
    or earlier. *)
Definition global_dominance : Prop :=
  ∀ evs s t ev s' i endpoint G,
    run init evs = Some s →
    step s (t, ev) = Some s' →
    call_started s ev s' i endpoint →
    rateLimitCollection s' !! global_key = Some (Num G) →
    (rateLimitCollection s' !! endpoint = None
     ∨ ∃ T, rateLimitCollection s' !! endpoint = Some (Num T) ∧ T < G) →
    G <= t.

(** A successful call made without waiting leaves the endpoint with no
    lockout entry. *)
Definition success_clears_lockout (s : State) (t : Z) (i : nat)
    (response : Response) : Prop :=
  ∀ endpoint path s',
    ops s !! i = Some (mkOp endpoint (InFlight path)) →
    path ≠ Timed →
    step s (t, NetDone i (NetOk response)) = Some s' →
    rateLimitCollection s' !! endpoint = None.

(** The call of submission [i] is issued again: it is pending, or the
    lockout timer is set and makes the call whenever it fires. *)
Definition call_reissued (s : State) (i : nat) (endpoint : string) : Prop :=
  (∃ path, ops s !! i = Some (mkOp endpoint (InFlight path)))
  ∨ ∃ due, ops s !! i = Some (mkOp endpoint (Sleeping due))
           ∧ ∀ t, clock s <= t → due <= t →
                  ∃ s', step s (t, TimerFire i) = Some s'
                        ∧ ops s' !! i = Some (mkOp endpoint (InFlight Timed)).

(** Does this result of a network call settle the submission (a response, or
    an error other than 429)? *)
Definition settles (result : NetResult) : bool :=
  match result with
  | NetOk _ => true
  | NetErr error => negb (is_429 error)
  end.

(** ** Sample runs *)

(** A clock reading of September 2020, in epoch milliseconds. *)
Definition t0 : Z := 1600000000000.

Definition plain_success : NetResult :=
  NetOk (mkResponse 200 (mkHeader (Num 4) (Num 1600000005) NaN false)).

Definition quota_exhausted (reset : Z) : NetResult :=
  NetOk (mkResponse 200 (mkHeader (Num 0) (Num reset) NaN false)).

Definition global_rejection (retry : Z) : NetResult :=
  NetErr (mkError (Some 429) (mkHeader NaN NaN (Num retry) true)).

Definition server_error : Error :=
  mkError (Some 500) (mkHeader NaN NaN NaN false).

Definition rate_limited : Error :=
  mkError (Some 429) (mkHeader NaN NaN (Num 2000) false).

(** Two submissions for one endpoint, the first call succeeds. *)
Definition two_submissions : list (Z * Event) :=
  [(t0, Submit "1" "t"); (t0 + 1, Submit "1" "t");
   (t0 + 5, NetDone 0%nat plain_success)].

(** A third submission arrives while the second call is pending. *)
Definition three_submissions : list (Z * Event) :=
  two_submissions ++ [(t0 + 6, Submit "1" "t")].

(** A call to [2/b] is rejected with a global lockout of 5 seconds. *)
Definition global_lockout_recorded : list (Z * Event) :=
  [(t0, Submit "2" "b"); (t0 + 10, NetDone 0%nat (global_rejection 5000))].

(** The quota of [1/a] is exhausted until [t0 + 5000]; the next submission
    is made one second after the reset. *)
Definition late_attempt : list (Z * Event) :=
  [(t0, Submit "1" "a"); (t0 + 10, NetDone 0%nat (quota_exhausted 1600000005));
   (t0 + 6000, Submit "1" "a")].

(** With a clock below 2^31 the stored timestamps survive [ToInt32]:
    endpoint [1/a] is locked until 1000 and a submission sleeps on it; a
    global lockout until 5040 is then recorded by a call to [2/b]. *)
Definition sleeper_then_global : list (Z * Event) :=
  [(0, Submit "1" "a"); (10, NetDone 0%nat (quota_exhausted 1));
   (20, Submit "1" "a"); (30, Submit "2" "b");
   (40, NetDone 2%nat (global_rejection 5000))].

(** ** Invariants of reachable states *)

Fixpoint has_slash (s : string) : bool :=
  match s with
  | EmptyString => false
  | String c s' => if Ascii.eqb c "/"%char then true else has_slash s'
  end.

Definition phase_ok (phase : Phase) : Prop :=
  ∀ error, phase = Settled (Rejected error) → is_429 error = false.

Definition op_ok (o : Op) : Prop :=
  op_endpoint o ≠ global_key ∧ phase_ok (op_phase o).

Definition state_ok (s : State) : Prop := Forall op_ok (ops s).

(** ** Further invariants of the two maps *)

(** Every entry of the queue map names an unsettled submission for that
    endpoint. *)
Definition queue_ok (s : State) : Prop :=
  ∀ e i, queueCollection s !! e = Some i →
         ∃ o, ops s !! i = Some o ∧ op_endpoint o = e ∧ pending o = true.

(** A chained submission waits for an earlier, unsettled submission for the
    same endpoint. *)
Definition chain_ok (s : State) : Prop :=
  ∀ j e pred, ops s !! j = Some (mkOp e (Queued pred)) →
              (pred < j)%nat
              ∧ ∃ o, ops s !! pred = Some o ∧ op_endpoint o = e ∧ pending o = true.

(** Every entry of the rate-limit cache other than the reserved one holds a
    signed 32-bit number and belongs to an endpoint that was submitted to. *)
Definition cache_ok (s : State) : Prop :=
  ∀ k v, rateLimitCollection s !! k = Some v → k ≠ global_key →
         (∃ z, v = Num z ∧ int32_range z)
         ∧ ∃ i o, ops s !! i = Some o ∧ op_endpoint o = k.

Definition links_ok (s : State) : Prop := queue_ok s ∧ chain_ok s.

(** Every submission is in a phase that satisfies [Q]. *)
Definition all_phases (Q : Phase → Prop) (l : list Op) : Prop :=
  Forall (λ o, Q (op_phase o)) l.

Definition is_sleeping (phase : Phase) : bool :=
  match phase with
  | Sleeping _ => true
  | _ => false
  end.

Definition is_queued (phase : Phase) : bool :=
  match phase with
  | Queued _ => true
  | _ => false
  end.

(** ** The request URL (line 56) *)

Definition baseURL : string := "https://discordapp.com/api/v6".

(** [`${this._baseURL}/${id}/${token}/${(type === true) ? 'github' : ''}`]. *)
Definition requestURL (id token : string) (type : bool) : string :=
  baseURL +:+ "/" +:+ id +:+ "/" +:+ token +:+ "/"
          +:+ (if type then "github" else "").

(** ** The GitLab route

    Header and property values are strings or [undefined] ([None]). *)

(** Truthiness of a string-or-undefined value. *)
Definition truthy (v : option string) : bool :=
  match v with
  | Some (String _ _) => true
  | _ => false
  end.

(** [a || b]. *)
Definition js_or (a b : option string) : option string :=
  if truthy a then a else b.

(** [s.split(',')[0]]. *)
Fixpoint before_comma (s : string) : string :=
  match s with
  | EmptyString => EmptyString
  | String c s' => if Ascii.eqb c ","%char then EmptyString else String c (before_comma s')
  end.

Fixpoint has_comma (s : string) : bool :=
  match s with
  | EmptyString => false
  | String c s' => if Ascii.eqb c ","%char then true else has_comma s'
  end.

(** The fields of [config.json] read by the route. *)
Record Config : Type := mkConfig {
  auth : bool;                          (* truthiness of config.auth *)
  authorizationGitlab : option string   (* config.authorizationGitlab *)
}.

Record GitlabRequest : Type := mkGitlabRequest {
  x_gitlab_event : option string;    (* req.headers['x-gitlab-event'] *)
  x_gitlab_token : option string;    (* req.headers['x-gitlab-token'] *)
  x_forwarded_for : option string;   (* req.headers['x-forwarded-for'] *)
  req_ip : option string;            (* req.ip *)
  connection : option (option string); (* req.connection and its remoteAddress *)
  body_project : bool                (* req.body.project is an object *)
}.

(** The condition of lines 14-16. *)
Definition unauthorized (config : Config) (req : GitlabRequest) : bool :=
  negb (truthy (x_gitlab_event req))
  || (auth config && negb (truthy (x_gitlab_token req)))
  || negb (bool_decide (x_gitlab_token req = authorizationGitlab config)).

(** The address handed to [IPBanHandler.countBan] (lines 20-22). *)
Definition client_ip (req : GitlabRequest) : option string :=
  js_or
    (js_or
       (match x_forwarded_for req with
        | Some xff => if truthy (Some xff) then Some (before_comma xff) else Some xff
        | None => None
        end)
       (req_ip req))
    (match connection req with
     | Some remoteAddress => remoteAddress
     | None => None
     end).

(** How a call of the route ends.  The route binds [requestHandler] to the
    module object of the handler file, whose only export is
    [WHRequestHandler]: [requestHandler.webhooks] is [undefined] there, so
    the loop of line 42 throws on it. *)
Inductive GitlabOutcome : Type :=
| Refused (ip : option string)  (* 403 sent, countBan(ip) called *)
| Thrown (line : nat).          (* TypeError raised at that line *)

Definition gitlab (config : Config) (req : GitlabRequest) : GitlabOutcome :=
  if unauthorized config req then Refused (client_ip req)
  else if negb (body_project req) then Thrown 29
  else Thrown 42.

(** ** Lemmas on the bit trick *)

Lemma ToInt32_in_range z : int32_range z → ToInt32 (Num z) = z.
Proof.
  unfold int32_range, ToInt32. intros Hz.
  destruct (Z_lt_le_dec z 0) as [Hneg | Hpos].
  - assert (Hm : z mod 2 ^ 32 = z + 2 ^ 32).
    { symmetry. apply (Z.mod_unique _ _ (-1)); lia. }
    rewrite Hm. destruct (Z.leb_spec (2 ^ 31) (z + 2 ^ 32)); lia.
  - rewrite Z.mod_small by lia.
    destruct (Z.leb_spec (2 ^ 31) z); lia.
Qed.

Lemma ToInt32_range x : int32_range (ToInt32 x).
Proof.
  unfold int32_range. destruct x as [| z]; simpl; [lia |].
  pose proof (Z.mod_pos_bound z (2 ^ 32) ltac:(lia)) as Hb.
  destruct (Z.leb_spec (2 ^ 31) (z mod 2 ^ 32)); lia.
Qed.

(** The expression selects one of its operands, already truncated. *)
Lemma branchless_max_select a b :
  branchless_max a b = if js_lt a b then ToInt32 b else ToInt32 a.
Proof.
  unfold branchless_max, neg_of_bool.
  destruct (js_lt a b); simpl Z.b2z.
  - change (ToInt32 (Num (- 1))) with (-1).
    rewrite Z.land_m1_r, <- Z.lxor_assoc, Z.lxor_nilpotent, Z.lxor_0_l.
    reflexivity.
  - change (ToInt32 (Num (- 0))) with 0.
    rewrite Z.land_0_r, Z.lxor_0_r. reflexivity.
Qed.

Lemma branchless_max_in_range a b :
  int32_range a → int32_range b →
  branchless_max (Num a) (Num b) = plain_max a b.
Proof.
  intros Ha Hb. rewrite branchless_max_select. unfold plain_max, js_lt.
  rewrite !ToInt32_in_range by done.
  destruct (Z.ltb_spec a b); lia.
Qed.

(** Every timestamp at or after 2^31 ms (25 January 1970) is truncated. *)
Lemma branchless_max_below_operands a b :
  2 ^ 31 <= a → 2 ^ 31 <= b → branchless_max (Num a) (Num b) < plain_max a b.
Proof.
  intros Ha Hb.
  pose proof (ToInt32_range (Num a)) as Ra.
  pose proof (ToInt32_range (Num b)) as Rb.
  rewrite branchless_max_select. unfold plain_max, int32_range in *.
  destruct (js_lt (Num a) (Num b)); lia.
Qed.

(** C2: at two millisecond timestamps of September 2020 the expression
    [a ^ ((a ^ b) & -(a < b))] yields [-2022796408], the later timestamp
    reduced to 32 bits, whereas the plain maximum is [1600000005000]. *)
Theorem branchless_max_truncates :
  branchless_max (Num 1600000000000) (Num 1600000005000) = -2022796408
  ∧ plain_max 1600000000000 1600000005000 = 1600000005000
  ∧ branchless_max (Num 1600000000000) (Num 1600000005000)
    ≠ plain_max 1600000000000 1600000005000.
Proof. split; [| split]; vm_compute; congruence. Qed.

(** ** [setOrEditRateLimitCache] *)

Lemma triggers_lockout_false header statusCode :
  x_ratelimit_remaining header ≠ Num 0 → statusCode ≠ 429 →
  triggers_lockout header statusCode = false.
Proof.
  intros Hrem Hst. unfold triggers_lockout.
  apply orb_false_intro.
  - destruct (x_ratelimit_remaining header) as [| [| p | p]]; simpl; congruence.
  - apply Z.eqb_neq. exact Hst.
Qed.

(** A response marked global gives the endpoint no entry at all: a 429 with
    reset [1600000005] s and retry-after [2000] ms, received at [t0]. *)
Lemma lockout_not_recorded_when_global :
  triggers_lockout (mkHeader NaN (Num 1600000005) (Num 2000) true) 429 = true
  ∧ ¬ records_endpoint_max t0 ∅ "1/t"
        (mkHeader NaN (Num 1600000005) (Num 2000) true) false 429 1600000005 2000.
Proof. split; [reflexivity |]. unfold records_endpoint_max. vm_compute. congruence. Qed.

(** For a lockout that is not marked global, whenever both timestamps are at
    or above 2^31 (every epoch-millisecond value after 25 January 1970) the
    value recorded for the endpoint is below their maximum. *)
Lemma lockout_below_max_on_real_clock now (cache : gmap string jsnum) endpoint
    header edit statusCode r t :
  triggers_lockout header statusCode = true →
  x_ratelimit_global header = false →
  x_ratelimit_reset header = Num r →
  retry_after header = Num t →
  2 ^ 31 <= r * 1000 →
  2 ^ 31 <= t + now →
  ∃ z, setOrEditRateLimitCache now cache endpoint header edit statusCode !! endpoint
       = Some (Num z)
       ∧ z < plain_max (r * 1000) (t + now).
Proof.
  intros Htrig Hglob Hr Ht Rr Rt. unfold setOrEditRateLimitCache.
  rewrite Htrig, Hglob, lookup_insert_eq.
  unfold discordResetTime, discordRetryAfter. rewrite Hr, Ht.
  eexists. split; [reflexivity |]. by apply branchless_max_below_operands.
Qed.

(** C1: a response received at [t0] with remaining quota 0, reset
    [1600000005] s and retry-after [2000] ms, not marked global, records
    [-2022796408] as the endpoint's unlock time; the maximum of the
    reset-derived and the retry-after-derived timestamps is
    [1600000005000]. *)
Theorem endpoint_lockout_is_not_the_max :
  triggers_lockout (mkHeader (Num 0) (Num 1600000005) (Num 2000) false) 200 = true
  ∧ x_ratelimit_global (mkHeader (Num 0) (Num 1600000005) (Num 2000) false) = false
  ∧ setOrEditRateLimitCache t0 ∅ "1/t"
      (mkHeader (Num 0) (Num 1600000005) (Num 2000) false) false 200 !! "1/t"
    = Some (Num (-2022796408))
  ∧ plain_max (1600000005 * 1000) (2000 + t0) = 1600000005000
  ∧ ¬ records_endpoint_max t0 ∅ "1/t"
        (mkHeader (Num 0) (Num 1600000005) (Num 2000) false) false 200
        1600000005 2000.
Proof.
  repeat split; try reflexivity.
  unfold records_endpoint_max. vm_compute. congruence.
Qed.

(** C7 (as stated) fails when the reset-derived timestamp is the later one:
    for a 429 marked global with reset [1600000005] s and retry-after [2000]
    ms, received at [t0], the reserved key receives [t0 + 2000], not the
    maximum [t0 + 5000]. *)
Lemma global_entry_is_not_the_max :
  triggers_lockout (mkHeader NaN (Num 1600000005) (Num 2000) true) 429 = true
  ∧ x_ratelimit_global (mkHeader NaN (Num 1600000005) (Num 2000) true) = true
  ∧ setOrEditRateLimitCache t0 ∅ "1/t"
      (mkHeader NaN (Num 1600000005) (Num 2000) true) false 429 !! global_key
    = Some (Num (t0 + 2000))
  ∧ plain_max (1600000005 * 1000) (2000 + t0) = t0 + 5000
  ∧ ¬ records_global_max t0 ∅ "1/t"
        (mkHeader NaN (Num 1600000005) (Num 2000) true) false 429 1600000005 2000.
Proof.
  repeat split; try reflexivity.
  unfold records_global_max. vm_compute. congruence.
Qed.

(** C7 (amended): a response that triggers a lockout and is marked global
    stores the retry-after-derived timestamp (retry-after plus the current
    time) under the reserved key, and leaves the endpoint key as it was. *)
Theorem global_lockout_stores_retry_after now (cache : gmap string jsnum) endpoint
    header edit statusCode :
  triggers_lockout header statusCode = true →
  x_ratelimit_global header = true →
  setOrEditRateLimitCache now cache endpoint header edit statusCode
  = <[global_key := js_add (retry_after header) (Num now)]> cache
  ∧ (endpoint ≠ global_key →
     setOrEditRateLimitCache now cache endpoint header edit statusCode !! endpoint
     = cache !! endpoint).
Proof.
  intros Htrig Hglob. unfold setOrEditRateLimitCache.
  rewrite Htrig, Hglob. split; [reflexivity |].
  intros Hne. by rewrite lookup_insert_ne.
Qed.

Lemma global_lockout_stores_retry_after_witness :
  setOrEditRateLimitCache t0 ∅ "1/t"
    (mkHeader NaN (Num 1600000005) (Num 2000) true) false 429
  = <[global_key := Num (2000 + t0)]> ∅.
Proof.
  exact (proj1 (global_lockout_stores_retry_after t0 ∅ "1/t"
                  (mkHeader NaN (Num 1600000005) (Num 2000) true) false 429
                  eq_refl eq_refl)).
Defined.

(** C10: when the remaining-quota header is not 0 after conversion (absent
    and non-numeric values convert to [NaN]), the status is not 429 and
    [edit] is false, the cache is returned unchanged. *)
Theorem cache_unchanged_without_lockout now (cache : gmap string jsnum) endpoint
    header statusCode :
  x_ratelimit_remaining header ≠ Num 0 →
  statusCode ≠ 429 →
  setOrEditRateLimitCache now cache endpoint header false statusCode = cache.
Proof.
  intros Hrem Hst. unfold setOrEditRateLimitCache.
  by rewrite triggers_lockout_false.
Qed.

Lemma cache_unchanged_without_lockout_witness :
  setOrEditRateLimitCache t0 {[ "1/t" := Num 7 ]} "1/t"
    (mkHeader NaN (Num 1600000005) (Num 2000) true) false 200
  = {[ "1/t" := Num 7 ]}.
Proof.
  apply (cache_unchanged_without_lockout t0 {[ "1/t" := Num 7 ]} "1/t"
           (mkHeader NaN (Num 1600000005) (Num 2000) true) 200);
    [discriminate | lia].
Defined.

(** ** The dispatch decision *)

Lemma timestamp_path_pending now (cache : gmap string jsnum) endpoint outcome :
  timestamp_path now cache endpoint ≠ Settled outcome.
Proof. unfold timestamp_path. by case_match. Qed.

Lemma conditionalsHandler_pending now (cache : gmap string jsnum) endpoint outcome :
  conditionalsHandler now cache endpoint ≠ Settled outcome.
Proof.
  unfold conditionalsHandler. case_match; [done |].
  apply timestamp_path_pending.
Qed.

Lemma phase_ok_conditionalsHandler now (cache : gmap string jsnum) endpoint :
  phase_ok (conditionalsHandler now cache endpoint).
Proof. intros error H. by apply conditionalsHandler_pending in H. Qed.

Lemma conditionalsHandler_with_global now (cache : gmap string jsnum) endpoint :
  is_Some (cache !! global_key) →
  conditionalsHandler now cache endpoint = timestamp_path now cache endpoint.
Proof.
  intros [v Hv]. unfold conditionalsHandler, map_has. rewrite Hv.
  by rewrite andb_false_r.
Qed.

Lemma conditionalsHandler_with_entry now (cache : gmap string jsnum) endpoint :
  is_Some (cache !! endpoint) →
  conditionalsHandler now cache endpoint = timestamp_path now cache endpoint.
Proof.
  intros [v Hv]. unfold conditionalsHandler, map_has. by rewrite Hv.
Qed.

(** An endpoint built by [request] contains a slash, the reserved key does
    not. *)
Lemma has_slash_endpoint id token : has_slash (endpoint_of id token) = true.
Proof.
  unfold endpoint_of. induction id as [| c id IH]; simpl; [done |].
  by destruct (Ascii.eqb c "/").
Qed.

Lemma endpoint_of_not_global id token : endpoint_of id token ≠ global_key.
Proof.
  intros Heq. pose proof (has_slash_endpoint id token) as Hs.
  rewrite Heq in Hs. discriminate Hs.
Qed.

(** ** Preservation of the invariants *)

Lemma state_ok_init : state_ok init.
Proof. constructor. Qed.

Lemma state_ok_set_phase i phase (l : list Op) :
  Forall op_ok l → phase_ok phase → Forall op_ok (set_phase i phase l).
Proof.
  intros Hl Hph. apply Forall_alter; [done |].
  intros o _ [He _]. by split.
Qed.

Lemma op_ok_start_queued now (cache : gmap string jsnum) i o :
  op_ok o → op_ok (start_queued now cache i o).
Proof.
  intros Hok. unfold start_queued.
  destruct (op_phase o); try exact Hok.
  case_bool_decide; [| exact Hok].
  split; [apply Hok | apply phase_ok_conditionalsHandler].
Qed.

Lemma state_ok_settle i endpoint outcome s :
  state_ok s → phase_ok (Settled outcome) → state_ok (settle i endpoint outcome s).
Proof.
  unfold state_ok, settle. simpl. intros Hs Hout.
  apply Forall_fmap. eapply Forall_impl.
  - by apply state_ok_set_phase.
  - intros o Ho. by apply op_ok_start_queued.
Qed.

Lemma state_ok_request s id token : state_ok s → state_ok (request s id token).
Proof.
  unfold state_ok, request. simpl. intros Hs.
  apply Forall_app. split; [done |].
  constructor; [| constructor].
  split; simpl; [apply endpoint_of_not_global |].
  repeat case_match; first [apply phase_ok_conditionalsHandler | by intros error].
Qed.

Lemma state_ok_set_clock t s : state_ok s → state_ok (set_clock t s).
Proof. done. Qed.

Lemma state_ok_step s tev s' : state_ok s → step s tev = Some s' → state_ok s'.
Proof.
  intros Hs. destruct tev as [t ev]. unfold step.
  destruct (t <? clock s); [done |].
  apply (state_ok_set_clock t) in Hs. revert Hs.
  generalize (set_clock t s). clear s. intros s Hs.
  destruct ev as [id token | i result | i].
  - intros [= <-]. by apply state_ok_request.
  - destruct (ops s !! i) as [[endpoint [| path | |  |]] |] eqn:Hi; try done.
    destruct result as [response | error]; intros [= <-].
    + unfold on_response. apply state_ok_settle; [done | by intros error].
    + unfold on_error. destruct (is_429 error) eqn:H429.
      * unfold state_ok. simpl. apply state_ok_set_phase; [done |].
        destruct path; first [apply phase_ok_conditionalsHandler | by intros e].
      * apply state_ok_settle; [done |]. by intros e [= <-].
  - destruct (ops s !! i) as [o |] eqn:Hi; [| done].
    unfold on_timer. destruct (op_phase o); try done.
    + case_match; [| done]. intros [= <-]. unfold state_ok. simpl.
      apply state_ok_set_phase; [done | by intros e].
    + intros [= <-]. unfold state_ok. simpl.
      apply state_ok_set_phase; [done | apply phase_ok_conditionalsHandler].
Qed.

Lemma state_ok_run evs : ∀ s s', state_ok s → run s evs = Some s' → state_ok s'.
Proof.
  induction evs as [| tev evs IH]; simpl; intros s s' Hs.
  - by intros [= <-].
  - destruct (step s tev) as [s1 |] eqn:Hstep; [| done].
    apply IH. by eapply state_ok_step.
Qed.

Lemma setOrEditRateLimitCache_keeps_global now (cache : gmap string jsnum) endpoint
    header edit statusCode :
  endpoint ≠ global_key →
  is_Some (cache !! global_key) →
  is_Some (setOrEditRateLimitCache now cache endpoint header edit statusCode
             !! global_key).
Proof.
  intros Hne Hg. unfold setOrEditRateLimitCache.
  repeat case_match.
  - rewrite lookup_insert_eq. by eexists.
  - by rewrite lookup_insert_ne.
  - by rewrite lookup_delete_ne.
  - done.
Qed.

Lemma step_keeps_global s tev s' :
  state_ok s → step s tev = Some s' →
  is_Some (rateLimitCollection s !! global_key) →
  is_Some (rateLimitCollection s' !! global_key).
Proof.
  intros Hs. destruct tev as [t ev]. unfold step.
  destruct (t <? clock s); [done |].
  destruct ev as [id token | i result | i]; simpl.
  - by intros [= <-].
  - destruct (ops s !! i) as [[endpoint [| path | |  |]] |] eqn:Hi; try done.
    assert (endpoint ≠ global_key) as Hne.
    { by destruct (Forall_lookup_1 _ _ _ _ Hs Hi). }
    destruct result as [response | error]; intros [= <-] Hg.
    + unfold on_response. simpl.
      by apply setOrEditRateLimitCache_keeps_global.
    + unfold on_error. destruct (is_429 error); simpl; [| done].
      by apply setOrEditRateLimitCache_keeps_global.
  - destruct (ops s !! i) as [o |] eqn:Hi; [| done].
    unfold on_timer. destruct (op_phase o); try done.
    + case_match; [| done]. by intros [= <-].
    + by intros [= <-].
Qed.

Lemma run_keeps_global evs : ∀ s s',
  state_ok s → run s evs = Some s' →
  is_Some (rateLimitCollection s !! global_key) →
  is_Some (rateLimitCollection s' !! global_key).
Proof.
  induction evs as [| tev evs IH]; simpl; intros s s' Hs.
  - by intros [= <-].
  - destruct (step s tev) as [s1 |] eqn:Hstep; [| done].
    intros Hrun Hg. apply (IH s1 s'); [by eapply state_ok_step | done |].
    by eapply step_keeps_global.
Qed.

(** A settled submission is never touched again: its outcome is final. *)
Lemma settled_is_final s tev s' i o :
  ops s !! i = Some o → pending o = false →
  step s tev = Some s' → ops s' !! i = Some o.
Proof.
  intros Hi Hp. destruct tev as [t ev]. unfold step.
  destruct (t <? clock s); [done |].
  assert (Hstart : ∀ now (cache : gmap string jsnum) k, start_queued now cache k o = o).
  { intros now cache k. unfold start_queued, pending in *.
    by destruct (op_phase o). }
  destruct ev as [id token | j result | j]; simpl.
  - intros [= <-]. simpl. by apply lookup_app_l_Some.
  - destruct (ops s !! j) as [[endpoint [| path | |  |]] |] eqn:Hj; try done.
    assert (j ≠ i) as Hne by (intros ->; rewrite Hi in Hj; by inversion Hj; subst).
    destruct result as [response | error]; intros [= <-].
    + unfold on_response, settle, set_phase. simpl.
      rewrite list_lookup_fmap, list_lookup_alter_ne, Hi by done.
      simpl. by rewrite Hstart.
    + unfold on_error. destruct (is_429 error); simpl.
      * unfold set_phase. by rewrite list_lookup_alter_ne.
      * unfold set_phase.
        rewrite list_lookup_fmap, list_lookup_alter_ne, Hi by done.
        simpl. by rewrite Hstart.
  - destruct (ops s !! j) as [oj |] eqn:Hj; [| done].
    assert (pending oj = true → j ≠ i) as Hne.
    { intros Hpj ->. rewrite Hi in Hj. inversion Hj; subst. congruence. }
    unfold on_timer. destruct (op_phase oj) eqn:Hph; try done.
    + case_match; [| done]. intros [= <-]. simpl. unfold set_phase.
      rewrite list_lookup_alter_ne; [done |]. apply Hne.
      unfold pending. by rewrite Hph.
    + intros [= <-]. simpl. unfold set_phase.
      rewrite list_lookup_alter_ne; [done |]. apply Hne.
      unfold pending. by rewrite Hph.
Qed.

(** A timer set for [due] runs its callback at [due] or later, and the
    callback starts the network call. *)
Lemma timer_never_early s t i endpoint due s' :
  ops s !! i = Some (mkOp endpoint (Sleeping due)) →
  step s (t, TimerFire i) = Some s' →
  due <= t ∧ ops s' !! i = Some (mkOp endpoint (InFlight Timed)).
Proof.
  intros Hi. unfold step. destruct (t <? clock s); [done |]. simpl.
  rewrite Hi. unfold on_timer. simpl.
  destruct (Z.leb_spec due t); [| done]. intros [= <-]. simpl.
  split; [done |]. unfold set_phase. by rewrite list_lookup_alter_eq, Hi.
Qed.

(** ** Ordering and cleanup of the per-endpoint queue *)

(** C3: after [request] is called twice for endpoint [1/t] and the first
    call succeeds, line 141 has removed the queue entry that belonged to the
    second submission; a third submission then starts its network call while
    the second call is still pending. *)
Theorem fifo_broken_after_queue_delete :
  ∃ s, run init three_submissions = Some s
       ∧ ops s !! 1%nat = Some (mkOp "1/t" (InFlight Direct))
       ∧ ops s !! 2%nat = Some (mkOp "1/t" (InFlight Direct))
       ∧ ¬ fifo_per_endpoint s.
Proof.
  eexists. split; [vm_compute; reflexivity |].
  split; [reflexivity |]. split; [reflexivity |].
  intros Hfifo.
  specialize (Hfifo 1%nat 2%nat _ _ ltac:(lia) eq_refl eq_refl eq_refl eq_refl).
  discriminate Hfifo.
Qed.

(** C6: after two submissions for endpoint [1/t], the success of the first
    call leaves the queue map without an entry for [1/t] although the second
    submission is still unsettled. *)
Theorem queue_entry_deleted_while_pending :
  ∃ s, run init two_submissions = Some s
       ∧ queueCollection s !! "1/t" = None
       ∧ ops s !! 1%nat = Some (mkOp "1/t" (InFlight Direct))
       ∧ ¬ queue_entry_while_pending s.
Proof.
  eexists. split; [vm_compute; reflexivity |].
  split; [reflexivity |]. split; [reflexivity |].
  intros Hq. destruct (Hq 1%nat _ eq_refl eq_refl) as [tail Htail].
  discriminate Htail.
Qed.

(** ** Global lockout *)

(** With the global entry [G] in the signed 32-bit range and the endpoint's
    own entry absent or earlier, [conditionalsHandler] either calls at once
    with [G] already past, or sets a timer due at [G] or later. *)
Lemma global_dominance_at_dispatch now (cache : gmap string jsnum) endpoint G :
  cache !! global_key = Some (Num G) →
  int32_range G →
  (cache !! endpoint = None ∨ ∃ T, cache !! endpoint = Some (Num T) ∧ T < G) →
  (conditionalsHandler now cache endpoint = InFlight Late ∧ G < now)
  ∨ (∃ due, conditionalsHandler now cache endpoint = Sleeping due ∧ G <= due).
Proof.
  intros Hg HG Hend.
  rewrite conditionalsHandler_with_global by (by rewrite Hg).
  unfold timestamp_path. rewrite Hg, branchless_max_select.
  assert (G <= (if js_lt (or_zero (cache !! endpoint)) (or_zero (Some (Num G)))
                then ToInt32 (or_zero (Some (Num G)))
                else ToInt32 (or_zero (cache !! endpoint)))) as Hle.
  { destruct Hend as [-> | (T & -> & HT)]; simpl or_zero; unfold js_lt.
    - destruct (Z.ltb_spec 0 G).
      + by rewrite ToInt32_in_range.
      + change (ToInt32 (Num 0)) with 0. lia.
    - destruct (Z.ltb_spec T G); [| lia].
      by rewrite ToInt32_in_range. }
  revert Hle. generalize (if js_lt (or_zero (cache !! endpoint)) (or_zero (Some (Num G)))
                then ToInt32 (or_zero (Some (Num G)))
                else ToInt32 (or_zero (cache !! endpoint))).
  intros timestamp Hle.
  destruct (Z.leb_spec now timestamp).
  - right. exists (now + (timestamp - now)). split; [done | lia].
  - left. split; [done | lia].
Qed.

(** A timer that is already pending is not revised: [1/a] sleeps until its
    own lockout (1000), a call to [2/b] then records a global lockout until
    5040, and the timer callback starts the call of [1/a] at 1000. *)
Lemma sleeping_submission_not_rechecked :
  ∃ s s', run init sleeper_then_global = Some s
          ∧ ops s !! 1%nat = Some (mkOp "1/a" (Sleeping 1000))
          ∧ rateLimitCollection s !! global_key = Some (Num 5040)
          ∧ step s (1000, TimerFire 1%nat) = Some s'
          ∧ ops s' !! 1%nat = Some (mkOp "1/a" (InFlight Timed)).
Proof.
  do 2 eexists. split; [vm_compute; reflexivity |].
  split; [reflexivity |]. split; [reflexivity |].
  split; [vm_compute; reflexivity | reflexivity].
Qed.

(** C4: a global lockout until [t0 + 5010] is recorded at [t0 + 10]; a
    submission for [1/a], which has no entry of its own, made at [t0 + 20]
    starts its network call at once.  [ToInt32] reduces the stored timestamp
    to a negative number, which is never in the future. *)
Theorem global_lockout_ignored_by_truncation :
  ∃ s s', run init global_lockout_recorded = Some s
          ∧ rateLimitCollection s !! global_key = Some (Num (t0 + 5010))
          ∧ rateLimitCollection s !! "1/a" = None
          ∧ step s (t0 + 20, Submit "1" "a") = Some s'
          ∧ rateLimitCollection s' !! global_key = Some (Num (t0 + 5010))
          ∧ ops s' !! 1%nat = Some (mkOp "1/a" (InFlight Late))
          ∧ branchless_max (Num 0) (Num (t0 + 5010)) = -2022796398
          ∧ ¬ global_dominance.
Proof.
  do 2 eexists. split; [vm_compute; reflexivity |].
  split; [reflexivity |]. split; [reflexivity |].
  split; [vm_compute; reflexivity |].
  split; [reflexivity |]. split; [reflexivity |].
  split; [reflexivity |].
  intros Hdom.
  pose (s := default init (run init global_lockout_recorded)).
  pose (s' := default init (step s (t0 + 20, Submit "1" "a"))).
  assert (Hrun : run init global_lockout_recorded = Some s) by (vm_compute; reflexivity).
  assert (Hstep : step s (t0 + 20, Submit "1" "a") = Some s') by (vm_compute; reflexivity).
  assert (t0 + 5010 <= t0 + 20) as Habsurd; [| lia].
  apply (Hdom _ s (t0 + 20) (Submit "1" "a") s' 1%nat "1/a" (t0 + 5010) Hrun Hstep).
  - split.
    + exists Late. vm_compute. reflexivity.
    + left. intros o. vm_compute. by intros [=].
  - vm_compute. reflexivity.
  - left. vm_compute. reflexivity.
Qed.

(** C9: once the reserved key is present it stays present in every later
    state, whatever is submitted, answered or timed out, and every dispatch
    takes the timestamp-comparison path. *)
Theorem global_entry_never_deleted evs s evs' s' :
  run init evs = Some s →
  is_Some (rateLimitCollection s !! global_key) →
  run s evs' = Some s' →
  is_Some (rateLimitCollection s' !! global_key)
  ∧ ∀ now endpoint,
      conditionalsHandler now (rateLimitCollection s') endpoint
      = timestamp_path now (rateLimitCollection s') endpoint.
Proof.
  intros Hrun Hg Hrun'.
  assert (state_ok s) as Hs by (eapply state_ok_run; [apply state_ok_init | done]).
  assert (is_Some (rateLimitCollection s' !! global_key)) as Hg'.
  { by eapply run_keeps_global. }
  split; [done |]. intros now endpoint.
  by apply conditionalsHandler_with_global.
Qed.

Lemma global_entry_never_deleted_witness :
  is_Some (rateLimitCollection
             (default init (run init (global_lockout_recorded
                                        ++ [(t0 + 20, TimerFire 0%nat);
                                            (t0 + 90, NetDone 0%nat plain_success)])))
             !! global_key).
Proof.
  refine (proj1 (global_entry_never_deleted global_lockout_recorded
                   (default init (run init global_lockout_recorded))
                   [(t0 + 20, TimerFire 0%nat); (t0 + 90, NetDone 0%nat plain_success)]
                   (default init (run init (global_lockout_recorded
                                        ++ [(t0 + 20, TimerFire 0%nat);
                                            (t0 + 90, NetDone 0%nat plain_success)])))
                   _ _ _)).
  - vm_compute. reflexivity.
  - vm_compute. by eexists.
  - vm_compute. reflexivity.
Defined.

(** ** Recording after a successful call *)

(** C8 (as stated) fails when the successful response itself reports an
    exhausted quota: the attempt at [t0 + 6000] is made at once (the lockout
    ended at [t0 + 5000]), its response carries remaining 0 and a new reset,
    and the endpoint is left with a lockout entry. *)
Lemma lockout_kept_after_late_success :
  ∃ s, run init late_attempt = Some s
       ∧ ops s !! 1%nat = Some (mkOp "1/a" (InFlight Late))
       ∧ ¬ success_clears_lockout s (t0 + 6100) 1%nat
             (mkResponse 200 (mkHeader (Num 0) (Num 1600000011) NaN false)).
Proof.
  eexists. split; [vm_compute; reflexivity |]. split; [reflexivity |].
  intros Hclear.
  specialize (Hclear "1/a" Late _ eq_refl ltac:(discriminate) eq_refl).
  vm_compute in Hclear. discriminate Hclear.
Qed.

(** C8 (amended): for an attempt made without waiting, a successful call is
    followed by [setOrEditRateLimitCache] with [edit] true on the
    timestamp-comparison path and false on the no-entry path; on the
    timestamp-comparison path the endpoint's entry is removed provided the
    response does not itself trigger a lockout (remaining 0 or status 429). *)
Theorem success_records_with_edit s t i endpoint path response s' :
  ops s !! i = Some (mkOp endpoint (InFlight path)) →
  path ≠ Timed →
  step s (t, NetDone i (NetOk response)) = Some s' →
  rateLimitCollection s'
  = setOrEditRateLimitCache t (rateLimitCollection s) endpoint (header response)
      (edit_flag path) (status response)
  ∧ (path = Late →
     triggers_lockout (header response) (status response) = false →
     rateLimitCollection s' !! endpoint = None).
Proof.
  intros Hi _. unfold step. destruct (t <? clock s); [done |]. simpl.
  rewrite Hi. intros [= <-]. unfold on_response, settle. simpl.
  split; [done |]. intros -> Htrig.
  unfold setOrEditRateLimitCache. rewrite Htrig. simpl.
  apply lookup_delete_eq.
Qed.

Lemma success_records_with_edit_witness :
  rateLimitCollection (default init (run init late_attempt)) !! "1/a"
  = Some (Num (-2022796408))
  ∧ rateLimitCollection
      (default init
         (run init (late_attempt ++ [(t0 + 6100, NetDone 1%nat plain_success)])))
      !! "1/a" = None.
Proof.
  split; [reflexivity |].
  refine (proj2 (success_records_with_edit
                   (default init (run init late_attempt)) (t0 + 6100) 1%nat "1/a" Late
                   (mkResponse 200 (mkHeader (Num 4) (Num 1600000005) NaN false))
                   (default init
                      (run init (late_attempt
                                   ++ [(t0 + 6100, NetDone 1%nat plain_success)])))
                   _ _ _) eq_refl _).
  - vm_compute. reflexivity.
  - discriminate.
  - vm_compute. reflexivity.
  - reflexivity.
Defined.

(** ** Transport errors *)

(** A 429 always leaves an entry behind, so the re-entry of line 160 takes
    the timestamp-comparison path. *)
Lemma conditionalsHandler_after_429 now t (cache : gmap string jsnum) endpoint
    header edit :
  conditionalsHandler now
    (setOrEditRateLimitCache t cache endpoint header edit 429) endpoint
  = timestamp_path now
      (setOrEditRateLimitCache t cache endpoint header edit 429) endpoint.
Proof.
  unfold setOrEditRateLimitCache, triggers_lockout.
  rewrite orb_true_r. destruct (x_ratelimit_global header).
  - apply conditionalsHandler_with_global. rewrite lookup_insert_eq. by eexists.
  - apply conditionalsHandler_with_entry. rewrite lookup_insert_eq. by eexists.
Qed.

Lemma lookup_set_phase_eq i phase (l : list Op) endpoint phase0 :
  l !! i = Some (mkOp endpoint phase0) →
  set_phase i phase l !! i = Some (mkOp endpoint phase).
Proof. intros Hi. unfold set_phase. by rewrite list_lookup_alter_eq, Hi. Qed.

Lemma lookup_set_phase_ne i j phase (l : list Op) :
  i ≠ j → set_phase i phase l !! j = l !! j.
Proof. intros Hne. unfold set_phase. by rewrite list_lookup_alter_ne. Qed.

(** The timer of line 183 can always fire, and its callback re-enters
    [conditionalsHandler] with the cache of that moment. *)
Lemma retry_timer_fires s i endpoint t :
  ops s !! i = Some (mkOp endpoint Retrying) →
  clock s <= t →
  ∃ s1, step s (t, TimerFire i) = Some s1
        ∧ clock s1 = t
        ∧ rateLimitCollection s1 = rateLimitCollection s
        ∧ ops s1 !! i
          = Some (mkOp endpoint (conditionalsHandler t (rateLimitCollection s) endpoint)).
Proof.
  intros Hi Ht. unfold step.
  destruct (Z.ltb_spec t (clock s)); [lia |]. simpl. rewrite Hi.
  unfold on_timer. simpl. eexists. split; [reflexivity |]. simpl.
  repeat split. by eapply lookup_set_phase_eq.
Qed.

(** The lockout timer of line 151 fires once its time has come, and its
    callback makes the call. *)
Lemma lockout_timer_fires s i endpoint due t :
  ops s !! i = Some (mkOp endpoint (Sleeping due)) →
  clock s <= t → due <= t →
  ∃ s1, step s (t, TimerFire i) = Some s1
        ∧ ops s1 !! i = Some (mkOp endpoint (InFlight Timed)).
Proof.
  intros Hi Ht Hdue. unfold step.
  destruct (Z.ltb_spec t (clock s)); [lia |]. simpl. rewrite Hi.
  unfold on_timer. simpl. destruct (Z.leb_spec due t); [| lia].
  eexists. split; [reflexivity |]. simpl. by eapply lookup_set_phase_eq.
Qed.

(** Entering [conditionalsHandler] issues the call, at once or through the
    lockout timer. *)
Lemma dispatch_reissues s i endpoint (cache : gmap string jsnum) :
  ops s !! i = Some (mkOp endpoint (conditionalsHandler (clock s) cache endpoint)) →
  call_reissued s i endpoint.
Proof.
  unfold conditionalsHandler, timestamp_path.
  destruct (negb (map_has cache endpoint) && negb (map_has cache global_key)).
  - intros Hi. left. by eexists.
  - destruct (clock s <=? _).
    + intros Hi. right. eexists. split; [exact Hi |].
      intros t Ht Hdue. by eapply lockout_timer_fires.
    + intros Hi. left. by eexists.
Qed.

(** A submission that waits for a timer is not disturbed by anything but
    that timer. *)
Lemma waiting_kept_by_other_events s t ev s' i o :
  ops s !! i = Some o →
  is_sleeping (op_phase o) = true ∨ op_phase o = Retrying →
  ev ≠ TimerFire i →
  step s (t, ev) = Some s' →
  ops s' !! i = Some o.
Proof.
  intros Hi Hwait Hev. unfold step. destruct (t <? clock s); [done |].
  assert (∀ now (cache : gmap string jsnum) k, start_queued now cache k o = o)
    as Hstart.
  { intros now cache k. unfold start_queued.
    destruct Hwait as [Hsl | ->]; [| done]. by destruct (op_phase o). }
  destruct ev as [id token | j result | j]; simpl.
  - intros [= <-]. simpl. by apply lookup_app_l_Some.
  - destruct (ops s !! j) as [[e [| path | |  |]] |] eqn:Hj; try done.
    assert (j ≠ i) as Hne.
    { intros ->. rewrite Hi in Hj. injection Hj as ->.
      by destruct Hwait as [Hsl | Hre]. }
    destruct result as [response | error]; intros [= <-].
    + unfold on_response, settle. simpl.
      rewrite list_lookup_fmap, lookup_set_phase_ne, Hi by done.
      simpl. by rewrite Hstart.
    + unfold on_error. destruct (is_429 error); simpl.
      * by rewrite lookup_set_phase_ne.
      * rewrite list_lookup_fmap, lookup_set_phase_ne, Hi by done.
        simpl. by rewrite Hstart.
  - assert (j ≠ i) as Hne by congruence.
    destruct (ops s !! j) as [oj |] eqn:Hj; [| done].
    unfold on_timer. destruct (op_phase oj); try done.
    + case_match; [| done]. intros [= <-]. simpl. by rewrite lookup_set_phase_ne.
    + intros [= <-]. simpl. by rewrite lookup_set_phase_ne.
Qed.

(** C5: in every reachable state no submission has been rejected with a 429
    error.  When a pending call rejects with status 429 the lockout is
    recorded, the submission stays unsettled and its call is issued again:
    at once on re-entry (line 160), or after the timer of line 183, which
    fires at any later time and re-enters [conditionalsHandler].  When the
    call rejects with any other error the submission settles as rejected
    with exactly that error, for good. *)
Theorem rate_limit_rejection_never_surfaced evs s :
  run init evs = Some s →
  (∀ i o error,
      ops s !! i = Some o → op_phase o = Settled (Rejected error) →
      is_429 error = false)
  ∧ (∀ t i endpoint path error s',
        ops s !! i = Some (mkOp endpoint (InFlight path)) →
        step s (t, NetDone i (NetErr error)) = Some s' →
        if is_429 error then
          rateLimitCollection s'
          = setOrEditRateLimitCache t (rateLimitCollection s) endpoint
              (error_header error) false 429
          ∧ (∃ phase,
              ops s' !! i = Some (mkOp endpoint phase)
              ∧ pending (mkOp endpoint phase) = true
              ∧ phase = match path with
                        | Timed => timestamp_path t (rateLimitCollection s') endpoint
                        | Direct | Late => Retrying
                        end)
          ∧ match path with
            | Timed => call_reissued s' i endpoint
            | Direct | Late =>
                ∀ t1, t <= t1 →
                      ∃ s1, step s' (t1, TimerFire i) = Some s1
                            ∧ ops s1 !! i
                              = Some (mkOp endpoint
                                        (timestamp_path t1 (rateLimitCollection s')
                                           endpoint))
                            ∧ call_reissued s1 i endpoint
            end
        else
          ops s' !! i = Some (mkOp endpoint (Settled (Rejected error)))
          ∧ ∀ tev s'', step s' tev = Some s'' →
              ops s'' !! i = Some (mkOp endpoint (Settled (Rejected error)))).
Proof.
  intros Hrun. split.
  - intros i o error Hi Hph.
    assert (state_ok s) as Hs by (eapply state_ok_run; [apply state_ok_init | done]).
    destruct (Forall_lookup_1 _ _ _ _ Hs Hi) as [_ Hok]. by apply Hok.
  - intros t i endpoint path error s' Hi. unfold step.
    destruct (t <? clock s); [done |]. simpl. rewrite Hi.
    intros [= <-]. unfold on_error. destruct (is_429 error) eqn:H429.
    + set (cache := setOrEditRateLimitCache (clock (set_clock t s))
                      (rateLimitCollection (set_clock t s)) endpoint
                      (error_header error) false 429).
      assert (∀ phase,
                 set_phase i phase (ops (set_clock t s)) !! i
                 = Some (mkOp endpoint phase)) as Hset.
      { intros phase. by eapply lookup_set_phase_eq. }
      split; [done |]. split.
      * eexists. simpl. rewrite Hset. split; [reflexivity |].
        destruct path; try done.
        unfold cache. rewrite conditionalsHandler_after_429. split; [| done].
        unfold pending. simpl.
        destruct (timestamp_path _ _ _) eqn:Hts; try done.
        by apply timestamp_path_pending in Hts.
      * assert (∀ t1, t <= t1 →
                  ∃ s1, step (mkState cache (queueCollection (set_clock t s))
                                (set_phase i Retrying (ops (set_clock t s)))
                                (clock (set_clock t s)))
                          (t1, TimerFire i) = Some s1
                        ∧ ops s1 !! i
                          = Some (mkOp endpoint (timestamp_path t1 cache endpoint))
                        ∧ call_reissued s1 i endpoint) as Hretry.
        { intros t1 Ht1.
          edestruct (retry_timer_fires
                       (mkState cache (queueCollection (set_clock t s))
                          (set_phase i Retrying (ops (set_clock t s)))
                          (clock (set_clock t s))) i endpoint t1)
            as (s1 & Hstep & Hclock & Hcache & Hi1); [apply Hset | done |].
          simpl in Hcache, Hi1. exists s1. split; [done |].
          split.
          - rewrite Hi1. unfold cache. by rewrite conditionalsHandler_after_429.
          - apply (dispatch_reissues s1 i endpoint cache). by rewrite Hclock. }
        destruct path; try exact Hretry.
        apply (dispatch_reissues _ i endpoint cache). simpl. apply Hset.
    + assert (ops (settle i endpoint (Rejected error) (set_clock t s)) !! i
              = Some (mkOp endpoint (Settled (Rejected error)))) as Hsettled.
      { unfold settle, set_phase. simpl.
        by rewrite list_lookup_fmap, list_lookup_alter_eq, Hi. }
      split; [exact Hsettled |].
      intros tev s'' Hstep. by eapply settled_is_final.
Qed.

Lemma rate_limit_rejection_never_surfaced_witness :
  ∃ s1, step (default init
                (run init [(t0, Submit "1" "a");
                           (t0 + 10, NetDone 0%nat (NetErr rate_limited))]))
          (t0 + 30, TimerFire 0%nat) = Some s1
        ∧ ops s1 !! 0%nat
          = Some (mkOp "1/a"
                    (timestamp_path (t0 + 30)
                       (rateLimitCollection
                          (default init
                             (run init [(t0, Submit "1" "a");
                                        (t0 + 10, NetDone 0%nat (NetErr rate_limited))])))
                       "1/a"))
        ∧ call_reissued s1 0%nat "1/a".
Proof.
  refine (proj2 (proj2 (proj2 (rate_limit_rejection_never_surfaced
                   [(t0, Submit "1" "a")]
                   (default init (run init [(t0, Submit "1" "a")])) _)
            (t0 + 10) 0%nat "1/a" Direct rate_limited
            (default init
               (run init [(t0, Submit "1" "a");
                          (t0 + 10, NetDone 0%nat (NetErr rate_limited))]))
            _ _)) (t0 + 30) _).
  - vm_compute. reflexivity.
  - vm_compute. reflexivity.
  - vm_compute. reflexivity.
  - vm_compute. discriminate.
Defined.

(** * Further properties of the handler *)

(** ** Endpoint keys and URLs *)

Lemma append_slash_inj a b x y :
  has_slash a = false → has_slash b = false →
  a +:+ "/" +:+ x = b +:+ "/" +:+ y → a = b ∧ x = y.
Proof.
  revert b. induction a as [| c a IH]; intros [| d b]; simpl.
  - intros _ _ Heq. by inversion Heq.
  - intros _ Hb Heq. inversion Heq; subst. by rewrite Ascii.eqb_refl in Hb.
  - intros Ha _ Heq. inversion Heq; subst. by rewrite Ascii.eqb_refl in Ha.
  - intros Ha Hb Heq. inversion Heq as [[Hc Htl]]. subst d.
    destruct (Ascii.eqb c "/"); [done |].
    destruct (IH b Ha Hb Htl) as [-> ->]. done.
Qed.

(** X1: two webhooks whose ids contain no slash share a queue and a lockout
    entry only if they have the same id and the same token. *)
Theorem endpoint_of_injective id token id' token' :
  has_slash id = false → has_slash id' = false →
  endpoint_of id token = endpoint_of id' token' →
  id = id' ∧ token = token'.
Proof. unfold endpoint_of. apply append_slash_inj. Qed.

Lemma endpoint_of_injective_witness :
  "12" = "12" ∧ "t/x" = "t/x".
Proof.
  apply (endpoint_of_injective "12" "t/x" "12" "t/x"); reflexivity.
Defined.

Lemma string_app_assoc (a b c : string) : (a +:+ b) +:+ c = a +:+ b +:+ c.
Proof.
  induction a as [| x a IH]; [done |].
  change (String x ((a +:+ b) +:+ c) = String x (a +:+ b +:+ c)).
  by rewrite IH.
Qed.

(** X2: the key of the two maps determines the URL that is posted to, for
    either value of the [type] flag. *)
Theorem requestURL_of_endpoint id token id' token' type :
  endpoint_of id token = endpoint_of id' token' →
  requestURL id token type = requestURL id' token' type.
Proof.
  unfold endpoint_of, requestURL. intros Heq.
  assert (∀ a b rest : string,
             a +:+ "/" +:+ b +:+ rest = (a +:+ "/" +:+ b) +:+ rest) as Hassoc.
  { intros a b rest. rewrite !string_app_assoc. reflexivity. }
  f_equal. f_equal. rewrite !Hassoc. by rewrite Heq.
Qed.

Lemma requestURL_of_endpoint_witness :
  requestURL "1/2" "t" true = requestURL "1" "2/t" true.
Proof. apply (requestURL_of_endpoint "1/2" "t" "1" "2/t" true). reflexivity. Defined.

(** ** More on [setOrEditRateLimitCache] *)

(** X3: a call changes at most the endpoint's key and the reserved key. *)
Theorem setOrEditRateLimitCache_frame now (cache : gmap string jsnum) endpoint
    header edit statusCode k :
  k ≠ endpoint → k ≠ global_key →
  setOrEditRateLimitCache now cache endpoint header edit statusCode !! k = cache !! k.
Proof.
  intros Hk Hg. unfold setOrEditRateLimitCache. repeat case_match.
  - by rewrite lookup_insert_ne.
  - by rewrite lookup_insert_ne.
  - by rewrite lookup_delete_ne.
  - done.
Qed.

Lemma setOrEditRateLimitCache_frame_witness :
  setOrEditRateLimitCache t0 {[ "9/z" := Num 7 ]} "1/t"
    (mkHeader (Num 0) (Num 1600000005) (Num 2000) false) true 200 !! "9/z"
  = ({[ "9/z" := Num 7 ]} : gmap string jsnum) !! "9/z".
Proof.
  apply (setOrEditRateLimitCache_frame t0 {[ "9/z" := Num 7 ]} "1/t"
           (mkHeader (Num 0) (Num 1600000005) (Num 2000) false) true 200 "9/z");
    discriminate.
Defined.

(** X4: whatever is stored under an endpoint key is a number of the signed
    32-bit range: never [NaN], never an epoch-millisecond value at or above
    2^31. *)
Theorem endpoint_entry_is_int32 now (cache : gmap string jsnum) endpoint
    header edit statusCode :
  triggers_lockout header statusCode = true →
  x_ratelimit_global header = false →
  ∃ z, setOrEditRateLimitCache now cache endpoint header edit statusCode !! endpoint
       = Some (Num z)
       ∧ int32_range z.
Proof.
  intros Htrig Hglob. unfold setOrEditRateLimitCache. rewrite Htrig, Hglob.
  eexists. rewrite lookup_insert_eq. split; [reflexivity |].
  rewrite branchless_max_select. case_match; apply ToInt32_range.
Qed.

Lemma endpoint_entry_is_int32_witness :
  ∃ z, setOrEditRateLimitCache t0 ∅ "1/t"
         (mkHeader (Num 0) (Num 1600000005) (Num 2000) false) false 200 !! "1/t"
       = Some (Num z)
       ∧ int32_range z.
Proof.
  apply (endpoint_entry_is_int32 t0 ∅ "1/t"
           (mkHeader (Num 0) (Num 1600000005) (Num 2000) false) false 200);
    reflexivity.
Defined.

(** X5: when the reset header is absent or not numeric, a lockout that is
    not global is recorded as timestamp 0, whatever retry-after says. *)
Theorem missing_reset_records_zero now (cache : gmap string jsnum) endpoint
    header edit statusCode :
  triggers_lockout header statusCode = true →
  x_ratelimit_global header = false →
  x_ratelimit_reset header = NaN →
  setOrEditRateLimitCache now cache endpoint header edit statusCode
  = <[endpoint := Num 0]> cache.
Proof.
  intros Htrig Hglob Hreset. unfold setOrEditRateLimitCache.
  rewrite Htrig, Hglob, branchless_max_select.
  unfold discordResetTime. by rewrite Hreset.
Qed.

Lemma missing_reset_records_zero_witness :
  setOrEditRateLimitCache t0 ∅ "1/t" (mkHeader NaN NaN (Num 2000) false) false 429
  = <["1/t" := Num 0]> ∅.
Proof.
  apply (missing_reset_records_zero t0 ∅ "1/t"
           (mkHeader NaN NaN (Num 2000) false) false 429); reflexivity.
Defined.

(** X6: when retry-after is absent or not numeric, a lockout marked global
    stores [NaN] under the reserved key, and the dispatch decision reads
    that entry as 0. *)
Theorem missing_retry_after_global_is_NaN now (cache : gmap string jsnum) endpoint
    header edit statusCode :
  triggers_lockout header statusCode = true →
  x_ratelimit_global header = true →
  retry_after header = NaN →
  setOrEditRateLimitCache now cache endpoint header edit statusCode
  = <[global_key := NaN]> cache
  ∧ or_zero (setOrEditRateLimitCache now cache endpoint header edit statusCode
               !! global_key) = Num 0.
Proof.
  intros Htrig Hglob Hretry. unfold setOrEditRateLimitCache.
  rewrite Htrig, Hglob. unfold discordRetryAfter. rewrite Hretry. simpl.
  split; [done |]. by rewrite lookup_insert_eq.
Qed.

Lemma missing_retry_after_global_is_NaN_witness :
  setOrEditRateLimitCache t0 ∅ "1/t" (mkHeader NaN NaN NaN true) false 429
  = <[global_key := NaN]> ∅.
Proof.
  exact (proj1 (missing_retry_after_global_is_NaN t0 ∅ "1/t"
                  (mkHeader NaN NaN NaN true) false 429 eq_refl eq_refl eq_refl)).
Defined.

(** X7: last writer wins.  A record that writes the endpoint key (a lockout
    not marked global, or a confirm-clear) erases the effect of an earlier
    record for the same endpoint that was not marked global, even when the
    earlier one stored a later timestamp. *)
Theorem later_record_overrides now1 now2 (cache : gmap string jsnum) endpoint
    header1 edit1 statusCode1 header2 edit2 statusCode2 :
  triggers_lockout header1 statusCode1 && x_ratelimit_global header1 = false →
  (if triggers_lockout header2 statusCode2
   then negb (x_ratelimit_global header2) else edit2) = true →
  setOrEditRateLimitCache now2
    (setOrEditRateLimitCache now1 cache endpoint header1 edit1 statusCode1)
    endpoint header2 edit2 statusCode2
  = setOrEditRateLimitCache now2 cache endpoint header2 edit2 statusCode2.
Proof.
  intros H1 H2. unfold setOrEditRateLimitCache.
  destruct (triggers_lockout header2 statusCode2).
  - destruct (x_ratelimit_global header2); [done |].
    destruct (triggers_lockout header1 statusCode1).
    + simpl in H1. rewrite H1. by rewrite insert_insert_eq.
    + destruct edit1; [| done]. by rewrite insert_delete_eq.
  - subst edit2.
    destruct (triggers_lockout header1 statusCode1).
    + simpl in H1. rewrite H1. by rewrite delete_insert_eq.
    + destruct edit1; [| done]. by rewrite delete_delete_eq.
Qed.

Lemma later_record_overrides_witness :
  setOrEditRateLimitCache (t0 + 10)
    (setOrEditRateLimitCache t0 ∅ "1/t"
       (mkHeader (Num 0) (Num 1600000009) NaN false) false 200)
    "1/t" (mkHeader (Num 0) (Num 1600000005) NaN false) true 200
  = setOrEditRateLimitCache (t0 + 10) ∅ "1/t"
      (mkHeader (Num 0) (Num 1600000005) NaN false) true 200.
Proof.
  apply (later_record_overrides t0 (t0 + 10) ∅ "1/t"
           (mkHeader (Num 0) (Num 1600000009) NaN false) false 200
           (mkHeader (Num 0) (Num 1600000005) NaN false) true 200); reflexivity.
Defined.

(** ** More on the dispatch decision *)

Lemma timestamp_path_cases now (cache : gmap string jsnum) endpoint :
  (timestamp_path now cache endpoint = InFlight Late)
  ∨ (∃ due, timestamp_path now cache endpoint = Sleeping due
            ∧ now <= due ∧ int32_range due).
Proof.
  unfold timestamp_path.
  pose proof (branchless_max_select (or_zero (cache !! endpoint))
                (or_zero (cache !! global_key))) as Hsel.
  assert (int32_range (branchless_max (or_zero (cache !! endpoint))
                         (or_zero (cache !! global_key)))) as Hrange.
  { rewrite Hsel. case_match; apply ToInt32_range. }
  revert Hrange. generalize (branchless_max (or_zero (cache !! endpoint))
                               (or_zero (cache !! global_key))).
  intros timestamp Hrange. destruct (Z.leb_spec now timestamp); [| by left].
  right. exists (now + (timestamp - now)). split; [done |].
  replace (now + (timestamp - now)) with timestamp by lia. done.
Qed.

(** On a clock at or after 2^31 ms no timer is set: the call is made at
    once, whatever the cache holds. *)
Lemma no_wait_on_real_clock now (cache : gmap string jsnum) endpoint :
  2 ^ 31 <= now →
  is_sleeping (conditionalsHandler now cache endpoint) = false.
Proof.
  intros Hnow. unfold conditionalsHandler. case_match; [done |].
  destruct (timestamp_path_cases now cache endpoint) as [-> | (d & _ & Hd & Hr)];
    [done |].
  unfold int32_range in Hr. lia.
Qed.

Lemma conditionalsHandler_not_queued now (cache : gmap string jsnum) endpoint :
  is_queued (conditionalsHandler now cache endpoint) = false.
Proof.
  unfold conditionalsHandler. case_match; [done |].
  by destruct (timestamp_path_cases now cache endpoint) as [-> | (d & -> & _)].
Qed.

Lemma conditionalsHandler_is_pending now (cache : gmap string jsnum) endpoint :
  pending (mkOp endpoint (conditionalsHandler now cache endpoint)) = true.
Proof.
  unfold pending. simpl.
  destruct (conditionalsHandler now cache endpoint) eqn:Hph; try done.
  by apply conditionalsHandler_pending in Hph.
Qed.

(** ** Invariants carried by every step *)

Section PhaseInvariant.
(** A property of phases that holds of every phase a step at time [t] can
    assign is kept by that step. *)
Variable Q : Phase → Prop.
Variable t : Z.
Hypothesis Q_dispatch : ∀ (cache : gmap string jsnum) endpoint,
    Q (conditionalsHandler t cache endpoint).
Hypothesis Q_queued : ∀ pred, Q (Queued pred).
Hypothesis Q_timed : Q (InFlight Timed).
Hypothesis Q_retrying : Q Retrying.
Hypothesis Q_settled : ∀ outcome, Q (Settled outcome).

Lemma all_phases_set_phase i phase (l : list Op) :
  all_phases Q l → Q phase → all_phases Q (set_phase i phase l).
Proof. intros Hl Hph. by apply Forall_alter. Qed.

Lemma all_phases_settle i endpoint outcome s :
  clock s = t → all_phases Q (ops s) → all_phases Q (ops (settle i endpoint outcome s)).
Proof.
  intros Ht Hl. unfold settle. simpl. apply Forall_fmap.
  eapply Forall_impl; [by apply all_phases_set_phase |].
  intros o Ho. simpl. unfold start_queued.
  destruct (op_phase o) eqn:Hph; try exact Ho.
  case_bool_decide; [| exact Ho].
  simpl. rewrite Ht. apply Q_dispatch.
Qed.

Lemma phase_invariant_step s ev s' :
  all_phases Q (ops s) → step s (t, ev) = Some s' → all_phases Q (ops s').
Proof.
  intros Hl. unfold step. destruct (t <? clock s); [done |].
  destruct ev as [id token | i result | i]; simpl.
  - intros [= <-]. simpl. apply Forall_app. split; [done |].
    constructor; [| constructor]. simpl.
    repeat case_match; first [apply Q_dispatch | apply Q_queued].
  - destruct (ops s !! i) as [[endpoint [| path | |  |]] |] eqn:Hi; try done.
    destruct result as [response | error]; intros [= <-].
    + unfold on_response. by apply all_phases_settle.
    + unfold on_error. destruct (is_429 error); simpl.
      * apply all_phases_set_phase; [done |].
        destruct path; first [apply Q_dispatch | apply Q_retrying].
      * by apply (all_phases_settle i endpoint (Rejected error) (set_clock t s)).
  - destruct (ops s !! i) as [o |] eqn:Hi; [| done].
    unfold on_timer. destruct (op_phase o); try done.
    + case_match; [| done]. intros [= <-]. simpl.
      by apply all_phases_set_phase.
    + intros [= <-]. simpl. apply all_phases_set_phase; [done |]. apply Q_dispatch.
Qed.
End PhaseInvariant.

(** X9: in a run whose events all happen at or after 2^31 ms (any date after
    25 January 1970), no submission is ever put to sleep on a lockout: the
    timer of line 151 is never set. *)
Theorem never_sleeps_on_real_clock evs s :
  Forall (λ tev : Z * Event, 2 ^ 31 <= tev.1) evs →
  run init evs = Some s →
  ∀ i o, ops s !! i = Some o → is_sleeping (op_phase o) = false.
Proof.
  intros Hevs Hrun.
  assert (Forall (λ o, is_sleeping (op_phase o) = false) (ops s)) as Hall.
  { assert (Forall (λ o, is_sleeping (op_phase o) = false) (ops init)) as Hinit
        by apply Forall_nil_2.
    revert Hinit Hrun. generalize init. induction Hevs as [| [t ev] evs Ht _ IH].
    - by intros s0 Hs0 [= <-].
    - cbn [run]. intros s0 Hs0.
      destruct (step s0 (t, ev)) as [s1 |] eqn:Hstep; [| intros [=]].
      apply IH.
      apply (phase_invariant_step (λ ph, is_sleeping ph = false) t) with s0 ev;
        try done.
      intros cache endpoint. by apply no_wait_on_real_clock. }
  intros i o Hi. by apply (Forall_lookup_1 _ _ _ _ Hall Hi).
Qed.

Lemma never_sleeps_on_real_clock_witness :
  is_sleeping (InFlight Late) = false.
Proof.
  apply (never_sleeps_on_real_clock late_attempt
           (default init (run init late_attempt))
           ltac:(repeat constructor; vm_compute; discriminate)
           ltac:(vm_compute; reflexivity) 1%nat (mkOp "1/a" (InFlight Late))).
  reflexivity.
Defined.

(** X10: when the pending call of a submission succeeds, the submission
    settles as resolved with exactly that response, on every path and
    whatever the response headers say, and stays so. *)
Theorem success_resolves_with_response s t i endpoint path response s' :
  ops s !! i = Some (mkOp endpoint (InFlight path)) →
  step s (t, NetDone i (NetOk response)) = Some s' →
  ops s' !! i = Some (mkOp endpoint (Settled (Resolved response)))
  ∧ ∀ tev s'', step s' tev = Some s'' →
               ops s'' !! i = Some (mkOp endpoint (Settled (Resolved response))).
Proof.
  intros Hi. unfold step. destruct (t <? clock s); [done |]. simpl.
  rewrite Hi. intros [= <-].
  assert (ops (on_response (set_clock t s) i endpoint path response) !! i
          = Some (mkOp endpoint (Settled (Resolved response)))) as Hsettled.
  { unfold on_response, settle, set_phase. simpl.
    by rewrite list_lookup_fmap, list_lookup_alter_eq, Hi. }
  split; [done |]. intros tev s'' Hstep. by eapply settled_is_final.
Qed.

Lemma success_resolves_with_response_witness :
  ops (default init (run init two_submissions)) !! 0%nat
  = Some (mkOp "1/t" (Settled (Resolved
            (mkResponse 200 (mkHeader (Num 4) (Num 1600000005) NaN false))))).
Proof.
  refine (proj1 (success_resolves_with_response
                   (default init (run init (take 2 two_submissions)))
                   (t0 + 5) 0%nat "1/t" Direct
                   (mkResponse 200 (mkHeader (Num 4) (Num 1600000005) NaN false))
                   (default init (run init two_submissions)) _ _)).
  - vm_compute. reflexivity.
  - vm_compute. reflexivity.
Defined.

(** ** The queue map and the chain of submissions *)

Lemma start_queued_endpoint now (cache : gmap string jsnum) i o :
  op_endpoint (start_queued now cache i o) = op_endpoint o.
Proof. unfold start_queued. by repeat case_match. Qed.

Lemma start_queued_pending now (cache : gmap string jsnum) i o :
  pending o = true → pending (start_queued now cache i o) = true.
Proof.
  intros Hp. unfold start_queued. repeat case_match; try done.
  apply conditionalsHandler_is_pending.
Qed.

Lemma links_ok_init : links_ok init.
Proof.
  split.
  - intros e i Hq. change ((∅ : gmap string nat) !! e = Some i) in Hq.
    by rewrite lookup_empty in Hq.
  - intros j e pred Hj. change (([] : list Op) !! j = Some (mkOp e (Queued pred))) in Hj.
    by rewrite lookup_nil in Hj.
Qed.

Lemma links_ok_delete cache cache' queue l t t' endpoint :
  links_ok (mkState cache queue l t) →
  links_ok (mkState cache' (delete endpoint queue) l t').
Proof.
  intros [Hq Hc]. split.
  - intros e i He. simpl in *. apply lookup_delete_Some in He as [_ He].
    by apply Hq.
  - exact Hc.
Qed.

Lemma links_ok_set_phase cache cache' queue l t t' i endpoint phase0 phase :
  links_ok (mkState cache queue l t) →
  l !! i = Some (mkOp endpoint phase0) →
  pending (mkOp endpoint phase) = true →
  is_queued phase = false →
  links_ok (mkState cache' queue (set_phase i phase l) t').
Proof.
  intros [Hq Hc] Hi Hpend Hnq.
  assert (∀ k o, l !! k = Some o → pending o = true →
                 ∃ o', set_phase i phase l !! k = Some o'
                       ∧ op_endpoint o' = op_endpoint o ∧ pending o' = true) as Hkeep.
  { intros k o Hk Hp. destruct (decide (i = k)) as [<- | Hne].
    - rewrite Hi in Hk. injection Hk as <-.
      eexists. split; [by eapply lookup_set_phase_eq |]. done.
    - exists o. by rewrite lookup_set_phase_ne. }
  split.
  - intros e k He. simpl in *.
    destruct (Hq e k He) as (o & Hk & Hend & Hp).
    destruct (Hkeep k o Hk Hp) as (o' & Hk' & Hend' & Hp').
    exists o'. by rewrite Hend'.
  - intros j e pred Hj. simpl in *.
    destruct (decide (i = j)) as [<- | Hne].
    + rewrite (lookup_set_phase_eq _ _ _ _ _ Hi) in Hj.
      injection Hj as <- Hph. by rewrite Hph in Hnq.
    + rewrite lookup_set_phase_ne in Hj by done.
      destruct (Hc j e pred Hj) as (Hlt & o & Hp & Hend & Hpo).
      split; [done |].
      destruct (Hkeep pred o Hp Hpo) as (o' & Hp' & Hend' & Hpo').
      exists o'. by rewrite Hend'.
Qed.

Lemma links_ok_settle i endpoint phase0 outcome s :
  links_ok s →
  ops s !! i = Some (mkOp endpoint phase0) →
  links_ok (settle i endpoint outcome s).
Proof.
  intros [Hq Hc] Hi.
  assert (∀ k o, k ≠ i → ops s !! k = Some o → pending o = true →
                 ∃ o', ops (settle i endpoint outcome s) !! k = Some o'
                       ∧ op_endpoint o' = op_endpoint o ∧ pending o' = true) as Hkeep.
  { intros k o Hne Hk Hp. unfold settle. simpl.
    rewrite list_lookup_fmap, lookup_set_phase_ne, Hk by done. simpl.
    eexists. split; [reflexivity |].
    split; [apply start_queued_endpoint | by apply start_queued_pending]. }
  split.
  - intros e k He.
    assert (queueCollection s !! e = Some k ∧ k ≠ i) as [He' Hne].
    { unfold settle in He. simpl in He. case_bool_decide as Htail.
      - apply lookup_delete_Some in He as [Hee He]. split; [done |].
        intros ->. destruct (Hq e i He) as (o & Ho & Hend & _).
        rewrite Hi in Ho. injection Ho as <-. simpl in Hend. congruence.
      - split; [done |]. intros ->.
        destruct (Hq e i He) as (o & Ho & Hend & _).
        rewrite Hi in Ho. injection Ho as <-. simpl in Hend. congruence. }
    destruct (Hq e k He') as (o & Hk & Hend & Hp).
    destruct (Hkeep k o Hne Hk Hp) as (o' & Hk' & Hend' & Hp').
    exists o'. by rewrite Hend'.
  - intros j e pred Hj. unfold settle in Hj. simpl in Hj.
    rewrite list_lookup_fmap in Hj.
    destruct (decide (i = j)) as [<- | Hne].
    + rewrite (lookup_set_phase_eq _ _ _ _ _ Hi) in Hj. simpl in Hj. done.
    + rewrite lookup_set_phase_ne in Hj by done.
      destruct (ops s !! j) as [oj |] eqn:Hoj; [| done]. simpl in Hj.
      injection Hj as Hj. unfold start_queued in Hj.
      destruct oj as [ej phj]. simpl in Hj.
      destruct phj as [p | | | |]; try done.
      case_bool_decide as Hpi.
      * injection Hj as _ Hph.
        pose proof (conditionalsHandler_not_queued (clock s) (rateLimitCollection s) ej)
          as Hnq.
        by rewrite Hph in Hnq.
      * injection Hj as -> ->.
        destruct (Hc j e pred Hoj) as (Hlt & o & Hp & Hend & Hpo).
        split; [done |].
        destruct (Hkeep pred o Hpi Hp Hpo) as (o' & Hp' & Hend' & Hpo').
        exists o'. by rewrite Hend'.
Qed.

Lemma links_ok_request s id token : links_ok s → links_ok (request s id token).
Proof.
  intros [Hq Hc]. unfold request.
  set (endpoint := endpoint_of id token).
  set (start := conditionalsHandler (clock s) (rateLimitCollection s) endpoint).
  set (phase := match queueCollection s !! endpoint with
                | Some pred => if is_settled (ops s) pred then start else Queued pred
                | None => start
                end).
  assert (pending (mkOp endpoint phase) = true) as Hpend.
  { unfold phase. repeat case_match; try done;
      apply conditionalsHandler_is_pending. }
  split.
  - intros e k He. simpl in *.
    destruct (decide (endpoint = e)) as [<- | Hne].
    + rewrite lookup_insert_eq in He. injection He as <-.
      exists (mkOp endpoint phase). split; [| done].
      rewrite lookup_app_r by lia. by rewrite Nat.sub_diag.
    + rewrite lookup_insert_ne in He by done.
      destruct (Hq e k He) as (o & Hk & Hend & Hp).
      exists o. split; [by apply lookup_app_l_Some | done].
  - intros j e pred Hj. simpl in *.
    destruct (decide (j < length (ops s))%nat) as [Hlt | Hge].
    + rewrite lookup_app_l in Hj by done.
      destruct (Hc j e pred Hj) as (Hlt' & o & Hp & Hend & Hpo).
      split; [done |]. exists o. split; [by apply lookup_app_l_Some | done].
    + rewrite lookup_app_r in Hj by lia.
      destruct (j - length (ops s))%nat as [| n] eqn:Hn; [| by destruct n].
      simpl in Hj. injection Hj as <- Hph.
      assert (queueCollection s !! endpoint = Some pred) as Htail.
      { unfold phase in Hph.
        pose proof (conditionalsHandler_not_queued (clock s) (rateLimitCollection s)
                      endpoint) as Hnq. fold start in Hnq.
        destruct (queueCollection s !! endpoint) as [p |]; [| by rewrite Hph in Hnq].
        destruct (is_settled (ops s) p); [by rewrite Hph in Hnq |].
        by injection Hph as ->. }
      destruct (Hq endpoint pred Htail) as (o & Hp & Hend & Hpo).
      split; [apply lookup_lt_Some in Hp; lia |].
      exists o. split; [by apply lookup_app_l_Some | done].
Qed.

Lemma links_ok_step s tev s' : links_ok s → step s tev = Some s' → links_ok s'.
Proof.
  intros Hs. destruct tev as [t ev]. unfold step.
  destruct (t <? clock s); [done |].
  assert (links_ok (set_clock t s)) as Hs' by (by destruct s).
  revert Hs'. generalize (set_clock t s). clear s Hs. intros s Hs.
  destruct ev as [id token | i result | i].
  - intros [= <-]. by apply links_ok_request.
  - destruct (ops s !! i) as [[endpoint [| path | |  |]] |] eqn:Hi; try done.
    destruct result as [response | error]; intros [= <-].
    + unfold on_response. eapply links_ok_settle; [| exact Hi].
      destruct path; [| by destruct s | by destruct s].
      destruct s. eapply links_ok_delete. exact Hs.
    + unfold on_error. destruct (is_429 error).
      * destruct s. eapply links_ok_set_phase; [done | exact Hi | |].
        -- destruct path; first [apply conditionalsHandler_is_pending | done].
        -- destruct path; first [apply conditionalsHandler_not_queued | done].
      * by eapply links_ok_settle.
  - destruct (ops s !! i) as [[endpoint phase0] |] eqn:Hi; [| done].
    unfold on_timer. simpl. destruct phase0; try done.
    + case_match; [| done]. intros [= <-]. destruct s.
      by eapply links_ok_set_phase.
    + intros [= <-]. destruct s.
      eapply links_ok_set_phase; [done | exact Hi | |].
      * apply conditionalsHandler_is_pending.
      * apply conditionalsHandler_not_queued.
Qed.

Lemma links_ok_run evs : ∀ s s', links_ok s → run s evs = Some s' → links_ok s'.
Proof.
  induction evs as [| tev evs IH]; cbn [run]; intros s s' Hs.
  - by intros [= <-].
  - destruct (step s tev) as [s1 |] eqn:Hstep; [| intros [=]].
    apply IH. by eapply links_ok_step.
Qed.

Lemma reachable_links_ok evs s : run init evs = Some s → links_ok s.
Proof. apply links_ok_run, links_ok_init. Qed.

(** X11: in every reachable state each entry of the queue map names a
    submission for that endpoint that has not settled yet: the map holds no
    stale tails. *)
Theorem queue_holds_no_stale_tail evs s :
  run init evs = Some s → queue_ok s.
Proof. intros Hrun. by destruct (reachable_links_ok evs s Hrun). Qed.

Lemma queue_holds_no_stale_tail_witness :
  ∃ o, ops (default init (run init (take 2 two_submissions))) !! 1%nat = Some o
       ∧ op_endpoint o = "1/t" ∧ pending o = true.
Proof.
  apply (queue_holds_no_stale_tail (take 2 two_submissions)
           (default init (run init (take 2 two_submissions)))
           ltac:(vm_compute; reflexivity) "1/t" 1%nat).
  reflexivity.
Defined.

(** X12: in every reachable state a submission that waits in the chain
    waits for an earlier submission for the same endpoint, and that one has
    not settled: a waiting submission never misses its wake-up and never
    depends on another endpoint. *)
Theorem chained_behind_unsettled_submission evs s :
  run init evs = Some s → chain_ok s.
Proof. intros Hrun. by destruct (reachable_links_ok evs s Hrun). Qed.

Lemma chained_behind_unsettled_submission_witness :
  (0 < 1)%nat
  ∧ ∃ o, ops (default init (run init (take 2 two_submissions))) !! 0%nat = Some o
         ∧ op_endpoint o = "1/t" ∧ pending o = true.
Proof.
  apply (chained_behind_unsettled_submission (take 2 two_submissions)
           (default init (run init (take 2 two_submissions)))
           ltac:(vm_compute; reflexivity) 1%nat "1/t" 0%nat).
  reflexivity.
Defined.

Lemma settle_wakes_successor s i e phase0 outcome j endpoint pred :
  i ≠ j →
  ops s !! i = Some (mkOp e phase0) →
  ops s !! j = Some (mkOp endpoint (Queued pred)) →
  is_settled (ops (settle i e outcome s)) i = true
  ∧ (pred = i →
     ops (settle i e outcome s) !! j
     = Some (mkOp endpoint
               (conditionalsHandler (clock s) (rateLimitCollection s) endpoint)))
  ∧ (pred ≠ i →
     ops (settle i e outcome s) !! j = Some (mkOp endpoint (Queued pred))).
Proof.
  intros Hne Hi Hj. unfold settle, is_settled. simpl. split; [| split].
  - by rewrite list_lookup_fmap, (lookup_set_phase_eq _ _ _ _ _ Hi).
  - intros Hp. rewrite list_lookup_fmap, lookup_set_phase_ne, Hj by done.
    simpl. unfold start_queued. simpl. by rewrite bool_decide_eq_true_2.
  - intros Hp. rewrite list_lookup_fmap, lookup_set_phase_ne, Hj by done.
    simpl. unfold start_queued. simpl. by rewrite bool_decide_eq_false_2.
Qed.

(** X13: a submission that waits in the chain enters [conditionalsHandler]
    in the step in which the call of its predecessor settles the predecessor
    (a response, or an error other than 429), with the cache as that step
    leaves it; in every other step, a 429 of the predecessor included, it
    keeps waiting. *)
Theorem chained_submission_starts_when_predecessor_settles
    s t ev s' j endpoint pred :
  ops s !! j = Some (mkOp endpoint (Queued pred)) →
  step s (t, ev) = Some s' →
  match ev with
  | NetDone i result =>
      if bool_decide (i = pred) && settles result
      then is_settled (ops s') pred = true
           ∧ ops s' !! j
             = Some (mkOp endpoint
                       (conditionalsHandler t (rateLimitCollection s') endpoint))
      else ops s' !! j = Some (mkOp endpoint (Queued pred))
           ∧ (i = pred → is_settled (ops s') pred = false)
  | Submit _ _ | TimerFire _ => ops s' !! j = Some (mkOp endpoint (Queued pred))
  end.
Proof.
  intros Hj. unfold step. destruct (t <? clock s); [done |].
  destruct ev as [id token | i result | i]; simpl.
  - intros [= <-]. simpl. by apply lookup_app_l_Some.
  - destruct (ops s !! i) as [[e [| path | |  |]] |] eqn:Hi; try done.
    assert (i ≠ j) as Hne by (intros ->; rewrite Hj in Hi; done).
    assert (∀ outcome s1,
               ops s1 = ops s → clock s1 = t →
               if bool_decide (i = pred)
               then is_settled (ops (settle i e outcome s1)) pred = true
                    ∧ ops (settle i e outcome s1) !! j
                      = Some (mkOp endpoint
                                (conditionalsHandler t
                                   (rateLimitCollection (settle i e outcome s1))
                                   endpoint))
               else ops (settle i e outcome s1) !! j
                    = Some (mkOp endpoint (Queued pred))
                    ∧ (i = pred → is_settled (ops (settle i e outcome s1)) pred = false))
      as Hsettle.
    { intros outcome s1 Hops Hclock.
      destruct (settle_wakes_successor s1 i e (InFlight path) outcome j endpoint pred)
        as (Hset & Hwake & Hwait); [done | by rewrite Hops | by rewrite Hops |].
      rewrite Hclock in Hwake.
      case_bool_decide as Hip.
      - subst pred. split; [done | by apply Hwake].
      - split; [apply Hwait; congruence | done]. }
    destruct result as [response | error]; intros [= <-]; cbn [settles].
    + rewrite andb_true_r. unfold on_response.
      apply Hsettle; reflexivity.
    + unfold on_error. destruct (is_429 error) eqn:H429; cbn [negb].
      * rewrite andb_false_r. cbn [ops]. rewrite lookup_set_phase_ne by done.
        split; [done |]. intros <-. unfold is_settled.
        rewrite (lookup_set_phase_eq _ _ _ _ _ Hi).
        destruct path; try done;
          destruct (conditionalsHandler _ _ _) eqn:Hph; try done;
          by apply conditionalsHandler_pending in Hph.
      * rewrite andb_true_r. apply Hsettle; reflexivity.
  - destruct (ops s !! i) as [[e phase0] |] eqn:Hi; [| done].
    unfold on_timer. simpl. destruct phase0; try done.
    + case_match; [| done]. intros [= <-]. simpl.
      rewrite lookup_set_phase_ne; [done |]. intros ->. rewrite Hj in Hi. done.
    + intros [= <-]. simpl.
      rewrite lookup_set_phase_ne; [done |]. intros ->. rewrite Hj in Hi. done.
Qed.

Lemma chained_submission_starts_when_predecessor_settles_witness :
  is_settled (ops (default init (run init two_submissions))) 0%nat = true
  ∧ ops (default init (run init two_submissions)) !! 1%nat
    = Some (mkOp "1/t"
              (conditionalsHandler (t0 + 5)
                 (rateLimitCollection (default init (run init two_submissions)))
                 "1/t")).
Proof.
  apply (chained_submission_starts_when_predecessor_settles
           (default init (run init (take 2 two_submissions)))
           (t0 + 5) (NetDone 0%nat plain_success)
           (default init (run init two_submissions)) 1%nat "1/t" 0%nat).
  - vm_compute. reflexivity.
  - vm_compute. reflexivity.
Defined.

(** X14: when no submission for an endpoint is unsettled, a new submission
    for it enters [conditionalsHandler] in the same step, whatever is
    pending for other endpoints. *)
Theorem idle_endpoint_starts_at_once evs s t id token s' :
  run init evs = Some s →
  (∀ i o, ops s !! i = Some o → op_endpoint o = endpoint_of id token →
          pending o = false) →
  step s (t, Submit id token) = Some s' →
  ops s' !! length (ops s)
  = Some (mkOp (endpoint_of id token)
            (conditionalsHandler t (rateLimitCollection s) (endpoint_of id token))).
Proof.
  intros Hrun Hidle. unfold step. destruct (t <? clock s); [done |].
  intros [= <-]. unfold request. simpl.
  rewrite lookup_app_r by lia. rewrite Nat.sub_diag. simpl.
  destruct (queueCollection s !! endpoint_of id token) as [pred |] eqn:Hq; [| done].
  destruct (queue_holds_no_stale_tail evs s Hrun _ _ Hq) as (o & Ho & Hend & Hp).
  rewrite (Hidle pred o Ho Hend) in Hp. done.
Qed.

Lemma idle_endpoint_starts_at_once_witness :
  ops (default init (run init (take 2 two_submissions ++ [(t0 + 2, Submit "2" "b")])))
    !! 2%nat
  = Some (mkOp "2/b" (InFlight Direct)).
Proof.
  apply (idle_endpoint_starts_at_once (take 2 two_submissions)
           (default init (run init (take 2 two_submissions))) (t0 + 2) "2" "b"
           (default init
              (run init (take 2 two_submissions ++ [(t0 + 2, Submit "2" "b")])))).
  - vm_compute. reflexivity.
  - intros [| [| i]] o; vm_compute; intros [= <-]; discriminate.
  - vm_compute. reflexivity.
Defined.

(** ** What the rate-limit cache can hold *)

Lemma setOrEditRateLimitCache_entry now (cache : gmap string jsnum) endpoint
    header edit statusCode k v :
  k ≠ global_key →
  setOrEditRateLimitCache now cache endpoint header edit statusCode !! k = Some v →
  cache !! k = Some v ∨ (k = endpoint ∧ ∃ z, v = Num z ∧ int32_range z).
Proof.
  intros Hk. unfold setOrEditRateLimitCache. repeat case_match.
  - rewrite lookup_insert_ne by done. by left.
  - destruct (decide (endpoint = k)) as [<- | Hne].
    + rewrite lookup_insert_eq. intros [= <-]. right. split; [done |].
      eexists. split; [done |].
      rewrite branchless_max_select. case_match; apply ToInt32_range.
    + rewrite lookup_insert_ne by done. by left.
  - intros Hv. apply lookup_delete_Some in Hv as [_ Hv]. by left.
  - by left.
Qed.

Lemma step_keeps_endpoint s tev s' i o :
  ops s !! i = Some o → step s tev = Some s' →
  ∃ o', ops s' !! i = Some o' ∧ op_endpoint o' = op_endpoint o.
Proof.
  intros Hi. destruct tev as [t ev]. unfold step.
  destruct (t <? clock s); [done |].
  assert (∀ j phase, ∃ o', set_phase j phase (ops s) !! i = Some o'
                           ∧ op_endpoint o' = op_endpoint o) as Hset.
  { intros j phase. destruct (decide (j = i)) as [-> | Hne].
    - destruct o as [e ph]. eexists. split; [by eapply lookup_set_phase_eq | done].
    - exists o. by rewrite lookup_set_phase_ne. }
  assert (∀ j phase now (cache : gmap string jsnum),
             ∃ o', (start_queued now cache j <$> set_phase j phase (ops s)) !! i = Some o'
                   ∧ op_endpoint o' = op_endpoint o) as Hsettle.
  { intros j phase now cache. destruct (Hset j phase) as (o1 & Ho1 & Hend).
    rewrite list_lookup_fmap, Ho1. simpl. eexists. split; [done |].
    by rewrite start_queued_endpoint. }
  destruct ev as [id token | j result | j]; simpl.
  - intros [= <-]. exists o. split; [by apply lookup_app_l_Some | done].
  - destruct (ops s !! j) as [[e [| path | |  |]] |]; try done.
    destruct result as [response | error]; intros [= <-].
    + apply Hsettle.
    + unfold on_error. destruct (is_429 error); simpl; [apply Hset | apply Hsettle].
  - destruct (ops s !! j) as [oj |]; [| done].
    unfold on_timer. destruct (op_phase oj); try done.
    + case_match; [| done]. intros [= <-]. apply Hset.
    + intros [= <-]. apply Hset.
Qed.

Lemma cache_ok_step s tev s' :
  state_ok s → cache_ok s → step s tev = Some s' → cache_ok s'.
Proof.
  intros Hok Hs Hstep k v Hv Hk.
  assert (rateLimitCollection s !! k = Some v
          ∨ ((∃ i o, ops s !! i = Some o ∧ op_endpoint o = k)
             ∧ ∃ z, v = Num z ∧ int32_range z)) as [Hold | [Hop Hz]].
  { revert Hstep Hv. destruct tev as [t ev]. unfold step.
    destruct (t <? clock s); [done |].
    destruct ev as [id token | i result | i]; simpl.
    - intros [= <-]. by left.
    - destruct (ops s !! i) as [[e [| path | |  |]] |] eqn:Hi; try done.
      assert (∀ now header edit statusCode,
                 setOrEditRateLimitCache now (rateLimitCollection s) e header edit
                   statusCode !! k = Some v →
                 rateLimitCollection s !! k = Some v
                 ∨ ((∃ i o, ops s !! i = Some o ∧ op_endpoint o = k)
                    ∧ ∃ z, v = Num z ∧ int32_range z)) as Hrec.
      { intros now header edit statusCode Hset.
        destruct (setOrEditRateLimitCache_entry _ _ _ _ _ _ _ _ Hk Hset)
          as [Hold | [-> Hz]]; [by left |].
        right. split; [| done]. by exists i, (mkOp e (InFlight path)). }
      destruct result as [response | error]; intros [= <-].
      + unfold on_response. simpl. apply Hrec.
      + unfold on_error. destruct (is_429 error); simpl; [apply Hrec | by left].
    - destruct (ops s !! i) as [o |]; [| done].
      unfold on_timer. destruct (op_phase o); try done.
      + case_match; [| done]. intros [= <-]. by left.
      + intros [= <-]. by left. }
  - destruct (Hs k v Hold Hk) as [Hz (i & o & Hi & Hend)]. split; [done |].
    destruct (step_keeps_endpoint s tev s' i o Hi Hstep) as (o' & Hi' & Hend').
    exists i, o'. by rewrite Hend'.
  - split; [done |]. destruct Hop as (i & o & Hi & Hend).
    destruct (step_keeps_endpoint s tev s' i o Hi Hstep) as (o' & Hi' & Hend').
    exists i, o'. by rewrite Hend'.
Qed.

(** X15: in every reachable state, each entry of the rate-limit cache other
    than the reserved one holds a number of the signed 32-bit range (never
    [NaN], never a full epoch-millisecond value) and is keyed by an endpoint
    that [request] was called for. *)
Theorem cache_entries_are_int32_of_submitted_endpoints evs s :
  run init evs = Some s → cache_ok s.
Proof.
  assert (∀ s0, state_ok s0 → cache_ok s0 → run s0 evs = Some s → cache_ok s) as Hgen.
  { induction evs as [| tev evs IH]; cbn [run]; intros s0 Hok Hs0.
    - by intros [= <-].
    - destruct (step s0 tev) as [s1 |] eqn:Hstep; [| intros [=]].
      apply IH; [by eapply state_ok_step | by eapply cache_ok_step]. }
  apply Hgen; [apply state_ok_init |].
  intros k v Hv. change ((∅ : gmap string jsnum) !! k = Some v) in Hv.
  by rewrite lookup_empty in Hv.
Qed.

Lemma cache_entries_are_int32_of_submitted_endpoints_witness :
  (∃ z, Num (-2022796408) = Num z ∧ int32_range z)
  ∧ ∃ i o, ops (default init (run init late_attempt)) !! i = Some o
           ∧ op_endpoint o = "1/a".
Proof.
  apply (cache_entries_are_int32_of_submitted_endpoints late_attempt
           (default init (run init late_attempt))
           ltac:(vm_compute; reflexivity) "1/a" (Num (-2022796408)));
    [reflexivity | discriminate].
Defined.

(** * The GitLab route *)

Lemma before_comma_has_no_comma s : has_comma (before_comma s) = false.
Proof.
  induction s as [| c s IH]; simpl; [done |].
  destruct (Ascii.eqb c ",") eqn:Hc; simpl; [done |]. by rewrite Hc.
Qed.

(** X16: a request whose token header differs from the configured token
    (an absent header differs from any configured string) is refused with
    403 and counted for the banning of its address, whether [config.auth] is
    on or off. *)
Theorem wrong_token_is_refused config req :
  x_gitlab_token req ≠ authorizationGitlab config →
  gitlab config req = Refused (client_ip req).
Proof.
  intros Hne. unfold gitlab, unauthorized.
  rewrite (bool_decide_eq_false_2 _ Hne). simpl.
  by rewrite orb_true_r.
Qed.

Lemma wrong_token_is_refused_witness :
  gitlab (mkConfig false (Some "secret"))
    (mkGitlabRequest (Some "Push Hook") (Some "guess") None (Some "10.0.0.7") None true)
  = Refused (Some "10.0.0.7").
Proof.
  apply (wrong_token_is_refused (mkConfig false (Some "secret"))
           (mkGitlabRequest (Some "Push Hook") (Some "guess") None
              (Some "10.0.0.7") None true)).
  discriminate.
Defined.

(** X17: with [config.auth] on and no token configured (the key is absent
    or holds the empty string) every request is refused: a request without a
    non-empty token fails the second test, and one with a non-empty token
    fails the comparison. *)
Theorem auth_without_configured_token_refuses_all config req :
  auth config = true →
  truthy (authorizationGitlab config) = false →
  gitlab config req = Refused (client_ip req).
Proof.
  intros Hauth Hcfg. unfold gitlab, unauthorized. rewrite Hauth.
  destruct (truthy (x_gitlab_token req)) eqn:Htok.
  - assert (x_gitlab_token req ≠ authorizationGitlab config) as Hne.
    { intros Heq. rewrite Heq in Htok. congruence. }
    rewrite (bool_decide_eq_false_2 _ Hne). simpl. by rewrite orb_true_r.
  - simpl. by rewrite orb_true_r.
Qed.

Lemma auth_without_configured_token_refuses_all_witness :
  gitlab (mkConfig true None)
    (mkGitlabRequest (Some "Push Hook") None None None None true)
  = Refused None.
Proof.
  apply (auth_without_configured_token_refuses_all (mkConfig true None)
           (mkGitlabRequest (Some "Push Hook") None None None None true));
    reflexivity.
Defined.

(** X18: with [config.auth] off and no token configured, a request that
    carries an event header and no token header is accepted. *)
Theorem open_when_auth_off_and_no_token_configured config req :
  auth config = false →
  authorizationGitlab config = None →
  truthy (x_gitlab_event req) = true →
  x_gitlab_token req = None →
  unauthorized config req = false.
Proof.
  intros Hauth Hcfg Hev Htok. unfold unauthorized.
  by rewrite Hauth, Hcfg, Hev, Htok.
Qed.

Lemma open_when_auth_off_and_no_token_configured_witness :
  unauthorized (mkConfig false None)
    (mkGitlabRequest (Some "Push Hook") None None None None true) = false.
Proof.
  apply (open_when_auth_off_and_no_token_configured (mkConfig false None)
           (mkGitlabRequest (Some "Push Hook") None None None None true));
    reflexivity.
Defined.

(** X19: when the forwarded-for header has a non-empty first component,
    that component, which contains no comma, is the address counted for
    banning, whatever [req.ip] and the socket address are. *)
Theorem forwarded_for_decides_client_ip req xff :
  x_forwarded_for req = Some xff →
  before_comma xff ≠ EmptyString →
  client_ip req = Some (before_comma xff)
  ∧ has_comma (before_comma xff) = false.
Proof.
  intros Hx Hne. split; [| apply before_comma_has_no_comma].
  unfold client_ip, js_or. rewrite Hx.
  assert (truthy (Some xff) = true) as Hxff.
  { destruct xff; [done | done]. }
  rewrite Hxff.
  assert (truthy (Some (before_comma xff)) = true) as Hfirst.
  { simpl. by destruct (before_comma xff). }
  by rewrite Hfirst, Hfirst.
Qed.

Lemma forwarded_for_decides_client_ip_witness :
  client_ip (mkGitlabRequest None None (Some "1.2.3.4, 10.0.0.1")
               (Some "10.0.0.7") (Some (Some "10.0.0.9")) true)
  = Some "1.2.3.4"
  ∧ has_comma "1.2.3.4" = false.
Proof.
  apply (forwarded_for_decides_client_ip
           (mkGitlabRequest None None (Some "1.2.3.4, 10.0.0.1")
              (Some "10.0.0.7") (Some (Some "10.0.0.9")) true)
           "1.2.3.4, 10.0.0.1"); [reflexivity | discriminate].
Defined.

(** X20: when the forwarded-for header is absent, or its first component is
    empty (the header is empty or starts with a comma), the address is
    [req.ip] if that is a non-empty string and otherwise the socket's
    [remoteAddress] ([undefined] without a socket). *)
Theorem client_ip_falls_back req :
  (x_forwarded_for req = None
   ∨ ∃ xff, x_forwarded_for req = Some xff ∧ before_comma xff = EmptyString) →
  client_ip req
  = if truthy (req_ip req) then req_ip req
    else match connection req with
         | Some remoteAddress => remoteAddress
         | None => None
         end.
Proof.
  intros [Hx | (xff & Hx & Hfirst)]; unfold client_ip, js_or; rewrite Hx.
  - simpl. by destruct (truthy (req_ip req)) eqn:Hip; rewrite ?Hip.
  - rewrite Hfirst.
    assert (truthy (if truthy (Some xff) then Some EmptyString else Some xff) = false)
      as Hfalsy.
    { destruct xff as [| c xff]; [done |]. done. }
    rewrite Hfalsy. by destruct (truthy (req_ip req)) eqn:Hip; rewrite ?Hip.
Qed.

Lemma client_ip_falls_back_witness :
  client_ip (mkGitlabRequest None None (Some ",1.2.3.4") None
               (Some (Some "10.0.0.9")) true)
  = Some "10.0.0.9".
Proof.
  apply (client_ip_falls_back
           (mkGitlabRequest None None (Some ",1.2.3.4") None
              (Some (Some "10.0.0.9")) true)).
  right. exists ",1.2.3.4". split; reflexivity.
Defined.
